(** * find-serverless-stacks: the detection pipeline, its rule engine and
      the TSV rendering, embedded from the Go sources

    - [internal/detector/rules.go]    : [DetectionRule], [RuleEngine]
    - [internal/detector/detector.go] : [Detector], the worker pool,
      [processStack], [hasServerlessDeploymentBucket], [convertToModel]
    - [internal/models/stack.go]      : [models.Stack]
    - [internal/output/formatter.go]  : [TSVFormatter]

    Conventions.  A Go [*string] is an [option string], a [*time.Time] an
    [option Time]; a Go [map[string]string] is an [option (gmap string
    string)] where [None] is the nil map; a Go slice is a [list] (the nil
    slice and the empty slice are both [[]], they have the same length and
    the same elements). *)

From Stdlib Require Import ZArith Lia Ascii String.
From stdpp Require Import base option list strings gmap sorting pretty.

Open Scope string_scope.

(** ** time.Time

    An instant, counted in nanoseconds from the zero instant (January 1,
    year 1, 00:00:00 UTC); [IsZero] recognises that instant. *)

Definition Time := Z.

Definition IsZero (t : Time) : bool := (t =? 0)%Z.

(** ** The error interface

    [errors.New] builds an [errorString]; [fmt.Errorf] with the verb [%w]
    builds a [wrapError] that keeps the wrapped error as its cause. *)

Inductive error :=
| errorString (s : string)
| wrapError (msg : string) (cause : error).

Definition Error (e : error) : string :=
  match e with
  | errorString s => s
  | wrapError msg _ => msg
  end.

Definition Errorf_w (context : string) (err : error) : error :=
  wrapError (context ++ ": " ++ Error err) err.

Definition Unwrap (e : error) : option error :=
  match e with
  | errorString _ => None
  | wrapError _ cause => Some cause
  end.

(** A Go result pair [(value, error)]: the callers below read the value
    only when the error is nil. *)
Inductive result (A : Type) :=
| Ok (a : A)
| Err (e : error).
Arguments Ok {A} a.
Arguments Err {A} e.

(** ** cloudformation/types: the fields the program reads *)

Module Tag.
Record t := mk { Key : option string; Value : option string }.
End Tag.

Module StackResource.
Record t := mk {
  LogicalResourceId : option string;
  PhysicalResourceId : option string;
  ResourceType : option string
}.
End StackResource.

Module StackSummary.
Record t := mk {
  StackName : option string;
  StackId : option string;
  CreationTime : option Time;
  LastUpdatedTime : option Time
}.
End StackSummary.

(** [types.Stack], the detail record returned by DescribeStacks. *)
Module StackDetail.
Record t := mk {
  StackName : option string;
  StackId : option string;
  Description : option string;
  CreationTime : option Time;
  LastUpdatedTime : option Time;
  Tags : list Tag.t
}.
End StackDetail.

(** ** models.Stack *)

Module models.
Record Stack := mkStack {
  StackName : string;
  StackID : string;
  Region : string;
  CreatedAt : Time;
  UpdatedAt : Time;
  Description : string;
  StackTags : option (gmap string string);
  Reasons : list string
}.
End models.

(** ** detector: hasServerlessDeploymentBucket *)

Definition deref_eq (p : option string) (s : string) : bool :=
  match p with
  | Some v => String.eqb v s
  | None => false
  end.

Fixpoint hasServerlessDeploymentBucket (resources : list StackResource.t) : bool :=
  match resources with
  | [] => false
  | resource :: rest =>
      if deref_eq (StackResource.LogicalResourceId resource) "ServerlessDeploymentBucket"
         && deref_eq (StackResource.ResourceType resource) "AWS::S3::Bucket"
      then true
      else hasServerlessDeploymentBucket rest
  end.

(** ** detector: rules.go

    A [DetectionRule] is a Go interface value: [Check] is a method on a
    receiver that may keep mutable fields.  [St] is the store the rule
    objects of one engine live in; a call to [Check] reads it and returns
    the store it leaves behind. *)

Section Rules.
Context {St : Type}.

Record DetectionRule := mkRule {
  Check : list StackResource.t → option StackDetail.t → St → (bool * string) * St;
  Name : string
}.

(** A rule without state: the receiver is never written and the answer
    does not depend on it. *)
Definition stateless (f : list StackResource.t → option StackDetail.t → bool * string)
  : list StackResource.t → option StackDetail.t → St → (bool * string) * St :=
  fun resources details h => (f resources details, h).

Definition ServerlessDeploymentBucketRule_Check
    (resources : list StackResource.t) (details : option StackDetail.t) : bool * string :=
  if hasServerlessDeploymentBucket resources
  then (true, "Contains resource with logical ID 'ServerlessDeploymentBucket'")
  else (false, "").

Definition ServerlessDeploymentBucketRule : DetectionRule :=
  {| Check := stateless ServerlessDeploymentBucketRule_Check;
     Name := "ServerlessDeploymentBucket" |}.

Record RuleEngine := mkEngine { rules : list DetectionRule }.

Definition NewRuleEngine : RuleEngine :=
  {| rules := [ServerlessDeploymentBucketRule] |}.

Definition AddRule (re : RuleEngine) (rule : DetectionRule) : RuleEngine :=
  {| rules := (rules re ++ [rule])%list |}.

(** One turn of the loop of [Evaluate]: the accumulator is
    [(isServerless, reasons)] and the store. *)
Definition Evaluate_step (resources : list StackResource.t) (details : option StackDetail.t)
    (acc : (bool * list string) * St) (rule : DetectionRule) : (bool * list string) * St :=
  let '((isServerless, reasons), h) := acc in
  let '((matches, reason), h') := Check rule resources details h in
  if matches then ((true, (reasons ++ [reason])%list), h') else ((isServerless, reasons), h').

Definition Evaluate (re : RuleEngine) (resources : list StackResource.t)
    (details : option StackDetail.t) (h : St) : (bool * list string) * St :=
  fold_left (Evaluate_step resources details) (rules re) ((false, []), h).

(** The answers of the rules, one per rule, in the order the loop of
    [Evaluate] calls them, each rule started on the store its predecessor
    left. *)
Fixpoint answers (rs : list DetectionRule) (resources : list StackResource.t)
    (details : option StackDetail.t) (h : St) : list (bool * string) * St :=
  match rs with
  | [] => ([], h)
  | rule :: rest =>
      let '(a, h') := Check rule resources details h in
      let '(l, h'') := answers rest resources details h' in
      (a :: l, h'')
  end.

(** A rule is pure when its answer is a function of [(resources, details)]
    alone and the call leaves the store as it found it. *)
Definition pure_rule (rule : DetectionRule) : Prop :=
  ∃ f, ∀ resources details h, Check rule resources details h = (f resources details, h).

End Rules.

Arguments DetectionRule St : clear implicits.
Arguments RuleEngine St : clear implicits.

(** ** models.Stack: the zero value and the field assignments *)

Module StackOps.
Import models.

Definition zero : Stack :=
  {| StackName := ""; StackID := ""; Region := ""; CreatedAt := 0%Z; UpdatedAt := 0%Z;
     Description := ""; StackTags := None; Reasons := [] |}.

Definition set_StackName (v : string) (s : Stack) : Stack :=
  let '(mkStack _ i r c u de t rs) := s in mkStack v i r c u de t rs.
Definition set_StackID (v : string) (s : Stack) : Stack :=
  let '(mkStack n _ r c u de t rs) := s in mkStack n v r c u de t rs.
Definition set_Region (v : string) (s : Stack) : Stack :=
  let '(mkStack n i _ c u de t rs) := s in mkStack n i v c u de t rs.
Definition set_CreatedAt (v : Time) (s : Stack) : Stack :=
  let '(mkStack n i r _ u de t rs) := s in mkStack n i r v u de t rs.
Definition set_UpdatedAt (v : Time) (s : Stack) : Stack :=
  let '(mkStack n i r c _ de t rs) := s in mkStack n i r c v de t rs.
Definition set_Description (v : string) (s : Stack) : Stack :=
  let '(mkStack n i r c u _ t rs) := s in mkStack n i r c u v t rs.
Definition set_StackTags (v : option (gmap string string)) (s : Stack) : Stack :=
  let '(mkStack n i r c u de _ rs) := s in mkStack n i r c u de v rs.
Definition set_Reasons (v : list string) (s : Stack) : Stack :=
  let '(mkStack n i r c u de t _) := s in mkStack n i r c u de t v.

(** [stack.StackTags[k] = v]: an assignment into a nil map panics; every
    assignment of the program follows a [make], the [None] case is kept
    as it is. *)
Definition put_StackTag (k v : string) (s : Stack) : Stack :=
  set_StackTags ((λ m, <[k:=v]> m) <$> StackTags s) s.

(** [if p != nil], assign the value [p] points to. *)
Definition when_set {A} (p : option A) (f : A → Stack → Stack) (s : Stack) : Stack :=
  match p with
  | Some v => f v s
  | None => s
  end.
End StackOps.

(** ** detector: detector.go *)

(** The data source.  Its answers are taken as functions of the stack
    name: the same stack asked twice gives the same answer.  The context
    argument is left out, a cancelled context shows as an [Err] answer. *)
Record AWSClient := mkClient {
  ListActiveStacks : result (list StackSummary.t);
  GetStackResources : string → result (list StackResource.t);
  GetStackDetails : string → result (option StackDetail.t)
}.

(** The engine of a detector is shared by its workers, which only read it:
    its rules live in the empty store [unit]. *)
Record Detector := mkDetector {
  client : AWSClient;
  region : string;
  ruleEngine : RuleEngine unit;
  maxWorkers : Z
}.

Definition NewDetector (client : AWSClient) (region : string) : Detector :=
  {| client := client; region := region; ruleEngine := NewRuleEngine; maxWorkers := 10 |}.

(** The loop over [details.Tags]. *)
Definition convertTag (stack : models.Stack) (tag : Tag.t) : models.Stack :=
  match Tag.Key tag, Tag.Value tag with
  | Some k, Some v => StackOps.put_StackTag k v stack
  | _, _ => stack
  end.

(** [now] is what [time.Now().UTC()] reads when the function runs. *)
Definition convertToModel (d : Detector) (now : Time) (summary : StackSummary.t)
    (details : option StackDetail.t) (reasons : list string) : models.Stack :=
  let stack := StackOps.set_Reasons reasons (StackOps.set_Region (region d) StackOps.zero) in
  let stack := StackOps.when_set (StackSummary.StackName summary) StackOps.set_StackName stack in
  let stack := StackOps.when_set (StackSummary.StackId summary) StackOps.set_StackID stack in
  let stack :=
    match details with
    | Some details =>
        let stack := StackOps.when_set (StackDetail.Description details) StackOps.set_Description stack in
        let stack := StackOps.when_set (StackDetail.CreationTime details) StackOps.set_CreatedAt stack in
        let stack := StackOps.when_set (StackDetail.LastUpdatedTime details) StackOps.set_UpdatedAt stack in
        let stack := StackOps.set_StackTags (Some ∅) stack in
        fold_left convertTag (StackDetail.Tags details) stack
    | None =>
        let stack := StackOps.when_set (StackSummary.CreationTime summary) StackOps.set_CreatedAt stack in
        let stack := StackOps.when_set (StackSummary.LastUpdatedTime summary) StackOps.set_UpdatedAt stack in
        StackOps.set_StackTags (Some ∅) stack
    end in
  let stack :=
    if IsZero (models.CreatedAt stack) then StackOps.set_CreatedAt now stack else stack in
  let stack :=
    if IsZero (models.UpdatedAt stack)
    then StackOps.set_UpdatedAt (models.CreatedAt stack) stack else stack in
  stack.

(** [processStack] returns a [*models.Stack]: [None] is the nil pointer. *)
Definition processStack (d : Detector) (now : Time) (summary : StackSummary.t)
    : option models.Stack :=
  match StackSummary.StackName summary with
  | None => None
  | Some stackName =>
      match GetStackResources (client d) stackName with
      | Err _ => None
      | Ok resources =>
          let details :=
            match GetStackDetails (client d) stackName with
            | Err _ => None
            | Ok details => details
            end in
          let '((isServerless, reasons), _) := Evaluate (ruleEngine d) resources details tt in
          if isServerless
          then Some (convertToModel d now summary details reasons)
          else None
      end
  end.

(** *** The worker pool

    [jobs] and [results] are the two channels, both with room for every
    candidate, so no send blocks; [jobs] holds what is still queued after
    the coordinator has sent every candidate and closed it.  A worker is
    at the head of its [for summary := range jobs] loop ([Ranging]), holds
    a candidate it has received ([Processing]), or has left the loop and
    signalled the wait group ([Returned]). *)

Inductive Worker :=
| Ranging
| Processing (summary : StackSummary.t)
| Returned.

Record Pool := mkPool {
  jobs : list StackSummary.t;
  workers : list Worker;
  results : list (option models.Stack)
}.

(** The scheduler's choice: which worker moves next, and what the clock
    reads while it moves. *)
Definition Event : Type := nat * Time.

Definition worker_step (d : Detector) (p : Pool) (ev : Event) : Pool :=
  let '(i, now) := ev in
  match workers p !! i with
  | Some Ranging =>
      match jobs p with
      | summary :: rest =>
          {| jobs := rest; workers := <[i := Processing summary]> (workers p);
             results := results p |}
      | [] =>
          {| jobs := []; workers := <[i := Returned]> (workers p); results := results p |}
      end
  | Some (Processing summary) =>
      {| jobs := jobs p; workers := <[i := Ranging]> (workers p);
         results := (results p ++ [processStack d now summary])%list |}
  | Some Returned | None => p
  end.

Definition is_Returned (w : Worker) : bool :=
  match w with
  | Returned => true
  | _ => false
  end.

Definition numWorkers (d : Detector) (summaries : list StackSummary.t) : Z :=
  let numWorkers := maxWorkers d in
  if (Z.of_nat (length summaries) <? numWorkers)%Z
  then Z.of_nat (length summaries)
  else numWorkers.

(** The collecting loop: the non-nil results, in the order they were sent. *)
Definition collect (results : list (option models.Stack)) : list models.Stack :=
  fold_left (λ serverlessStacks result,
               match result with
               | Some stack => (serverlessStacks ++ [stack])%list
               | None => serverlessStacks
               end) results [].

Definition start (d : Detector) (summaries : list StackSummary.t) : Pool :=
  {| jobs := summaries;
     workers := replicate (Z.to_nat (numWorkers d summaries)) Ranging;
     results := [] |}.

(** [sched] is the interleaving of one run.  The wait group releases the
    collector once every worker has returned; a schedule that stops before
    gives no answer ([None]). *)
Definition processStacksConcurrently (d : Detector) (sched : list Event)
    (summaries : list StackSummary.t) : option (list models.Stack * option error) :=
  let p := fold_left (worker_step d) sched (start d summaries) in
  if forallb is_Returned (workers p)
  then Some (collect (results p), None)
  else None.

Definition DetectServerlessStacks (d : Detector) (sched : list Event)
    : option (list models.Stack * option error) :=
  match ListActiveStacks (client d) with
  | Err err => Some ([], Some err)
  | Ok summaries => processStacksConcurrently d sched summaries
  end.

(** A schedule that always completes: worker 0 takes every candidate in
    turn, then every worker finds the queue closed. *)
Definition sequential (now : Time) (n w : nat) : list Event :=
  (mjoin (replicate n [(0, now); (0, now)]) ++ ((λ i, (i, now)) <$> seq 0 w))%list.

(** ** output: formatter.go, the TSV formatter *)

Definition TAB : ascii := "009"%char.
Definition LF : ascii := "010"%char.
Definition CR : ascii := "013"%char.
Definition BACKSLASH : ascii := "\"%char.

(** [strings.ReplaceAll s old new] for a pattern [old] of one byte. *)
Fixpoint ReplaceAll (s : string) (old : ascii) (new : string) : string :=
  match s with
  | EmptyString => EmptyString
  | String c rest =>
      if Ascii.eqb c old
      then new ++ ReplaceAll rest old new
      else String c (ReplaceAll rest old new)
  end.

(** [strings.Join] *)
Definition Join (elems : list string) (sep : string) : string := String.concat sep elems.

(** [strings.HasSuffix] *)
Definition HasSuffix (s suffix : string) : bool :=
  (String.length suffix <=? String.length s)%nat
  && String.eqb (String.substring (String.length s - String.length suffix)
                                  (String.length suffix) s) suffix.

(** [sort.Strings]: increasing, bytes compared as unsigned numbers. *)
Definition sort_Strings (keys : list string) : list string := merge_sort String.le keys.

Section TSV.
(** [t.Format(time.RFC3339)] of the standard library. *)
Variable Format_RFC3339 : Time → string.

Definition escapeValue (value : string) : string :=
  let value := ReplaceAll value TAB (String BACKSLASH "t") in
  let value := ReplaceAll value LF (String BACKSLASH "n") in
  let value := ReplaceAll value CR (String BACKSLASH "r") in
  value.

Definition formatTime (t : Time) : string :=
  if IsZero t then "" else Format_RFC3339 t.

(** The map is ranged over in an order the language leaves open; the
    keys are sorted before they are used, so any order gives the same
    result and [map_to_list] is taken as the one the range follows. *)
Definition formatTags (tags : option (gmap string string)) : string :=
  match tags with
  | None => ""
  | Some m =>
      if (size m =? 0)%nat then ""
      else
        let keys := sort_Strings ((map_to_list m).*1) in
        let pairs :=
          fold_left (λ pairs key,
                       let value := default "" (m !! key) in
                       let pair := escapeValue key ++ "=" ++ escapeValue value in
                       (pairs ++ [pair])%list)
                    keys [] in
        Join pairs ";"
  end.

Definition formatReasons (reasons : list string) : string :=
  if (length reasons =? 0)%nat then ""
  else
    let escapedReasons :=
      fold_left (λ escapedReasons reason, (escapedReasons ++ [escapeValue reason])%list)
                reasons [] in
    Join escapedReasons ";".

Definition header : list string :=
  ["StackName"; "StackID"; "Region"; "Description"; "CreatedAt"; "UpdatedAt"; "Tags"; "Reasons"].

Definition row (stack : models.Stack) : list string :=
  [ escapeValue (models.StackName stack);
    escapeValue (models.StackID stack);
    escapeValue (models.Region stack);
    escapeValue (models.Description stack);
    formatTime (models.CreatedAt stack);
    formatTime (models.UpdatedAt stack);
    formatTags (models.StackTags stack);
    formatReasons (models.Reasons stack) ].

(** [result] is the [strings.Builder]. *)
Definition Format (stacks : list models.Stack) : string * option error :=
  let result := "" in
  let result := result ++ Join header (String TAB "") in
  let result := result ++ String LF "" in
  let result :=
    fold_left (λ result stack, (result ++ Join (row stack) (String TAB "")) ++ String LF "")
              stacks result in
  let output := result in
  let output :=
    if HasSuffix output (String LF "")
    then String.substring 0 (String.length output - 1) output
    else output in
  (output, None).

(** *** The rendering as the specification words it

    One header line, one line per result in list order; a cell is
    escaped byte by byte; the tag cell lists [key=value] by increasing
    key, the tag and reason cells are joined by [;]. *)

Definition escape_byte (c : ascii) : string :=
  if Ascii.eqb c TAB then String BACKSLASH "t"
  else if Ascii.eqb c LF then String BACKSLASH "n"
  else if Ascii.eqb c CR then String BACKSLASH "r"
  else String c "".

Fixpoint escaped (s : string) : string :=
  match s with
  | EmptyString => EmptyString
  | String c rest => escape_byte c ++ escaped rest
  end.

Definition tag_cell (entries : list (string * string)) : string :=
  String.concat ";" ((λ kv, escaped kv.1 ++ "=" ++ escaped kv.2) <$> entries).

Definition spec_row (stack : models.Stack) (entries : list (string * string)) : string :=
  String.concat (String TAB "")
    [ escaped (models.StackName stack); escaped (models.StackID stack);
      escaped (models.Region stack); escaped (models.Description stack);
      formatTime (models.CreatedAt stack); formatTime (models.UpdatedAt stack);
      tag_cell entries;
      String.concat ";" (escaped <$> models.Reasons stack) ].

(** The entries of a tag map by increasing key ([None], the nil map, has
    none). *)
Definition sorted_entries (tags : option (gmap string string))
    (entries : list (string * string)) : Prop :=
  entries ≡ₚ map_to_list (default ∅ tags) ∧
  StronglySorted (λ a b, String.le a b ∧ a ≠ b) (entries.*1).

(** No raw separator is left in a string. *)
Fixpoint clean (s : string) : bool :=
  match s with
  | EmptyString => true
  | String c rest =>
      negb (Ascii.eqb c TAB) && negb (Ascii.eqb c LF) && negb (Ascii.eqb c CR) && clean rest
  end.

End TSV.

(** ** Definitions used by the statements *)

(** A resource that carries the signature of the deployment tool. *)
Definition is_signature_bucket (r : StackResource.t) : Prop :=
  StackResource.LogicalResourceId r = Some "ServerlessDeploymentBucket" ∧
  StackResource.ResourceType r = Some "AWS::S3::Bucket".

(** The resources of scenario 1. *)
Definition my_api_dev_resources : list StackResource.t :=
  [ StackResource.mk (Some "ServerlessDeploymentBucket") None (Some "AWS::S3::Bucket");
    StackResource.mk (Some "MyFunction") None (Some "AWS::Lambda::Function") ].

(** A rule that is not pure: it flips a flag kept in the store. *)
Definition flipping_rule : DetectionRule bool :=
  {| Check := λ _ _ (seen : bool), ((negb seen, "first sight"), true); Name := "Flip" |}.

(** The candidates the coordinator drops without looking at their
    resources: no name, or a failed resource fetch. *)
Definition skipped (d : Detector) (summary : StackSummary.t) : bool :=
  match StackSummary.StackName summary with
  | None => true
  | Some stackName =>
      match GetStackResources (client d) stackName with
      | Err _ => true
      | Ok _ => false
      end
  end.

(** The candidates the workers hold. *)
Definition busy (ws : list Worker) : list StackSummary.t :=
  omap (λ w, match w with Processing summary => Some summary | _ => None end) ws.

(** What [processStack] gave for the candidates of [done], each with the
    clock reading of its run. *)
Definition outcomes (d : Detector) (done : list (StackSummary.t * Time))
    : list (option models.Stack) :=
  (λ st, processStack d st.2 st.1) <$> done.

(** The invariant of the pool: every candidate is queued, held by a
    worker, or done, and its result has been sent; a worker returns only
    from an empty queue.  [T] holds of the clock readings met so far. *)
Definition pool_inv (d : Detector) (T : Time → Prop) (summaries : list StackSummary.t)
    (p : Pool) : Prop :=
  ∃ done,
    results p = outcomes d done ∧
    Forall (λ st, T st.2) done ∧
    (done.*1 ++ busy (workers p) ++ jobs p)%list ≡ₚ summaries ∧
    (Returned ∈ workers p → jobs p = []).

(** The tags of a detail record that have both a key and a value. *)
Definition tag_entries (tags : list Tag.t) : list (string * string) :=
  omap (λ tag, match Tag.Key tag, Tag.Value tag with
               | Some k, Some v => Some (k, v)
               | _, _ => None
               end) tags.

(** How [encoding/json] writes a map field: [null] for the nil map, an
    object for any other map, the empty one included. *)
Inductive json_kind :=
| JSONNull
| JSONObject.

Definition marshal_tags_kind (tags : option (gmap string string)) : json_kind :=
  match tags with
  | None => JSONNull
  | Some _ => JSONObject
  end.

(** The timestamps the coordinator reads: those of the detail record when
    there is one, those of the listing entry otherwise. *)
Definition source_CreationTime (summary : StackSummary.t) (details : option StackDetail.t)
    : option Time :=
  match details with
  | Some details => StackDetail.CreationTime details
  | None => StackSummary.CreationTime summary
  end.

Definition source_LastUpdatedTime (summary : StackSummary.t) (details : option StackDetail.t)
    : option Time :=
  match details with
  | Some details => StackDetail.LastUpdatedTime details
  | None => StackSummary.LastUpdatedTime summary
  end.

(** A timestamp is given when the pointer is set and the instant it
    points to is not the zero instant. *)
Definition given (p : option Time) : option Time :=
  match p with
  | Some t => if IsZero t then None else Some t
  | None => None
  end.

(** The detail record [processStack] works with: absent when the fetch
    fails or finds nothing. *)
Definition details_of (d : Detector) (stackName : string) : option StackDetail.t :=
  match GetStackDetails (client d) stackName with
  | Err _ => None
  | Ok details => details
  end.

(** ** The data of the tests and scenarios *)

Definition signature_bucket : StackResource.t :=
  StackResource.mk (Some "ServerlessDeploymentBucket") None (Some "AWS::S3::Bucket").

Definition candidate (name : string) : StackSummary.t :=
  StackSummary.mk (Some name) (Some ("arn:aws:cloudformation:us-east-1:123456789012:stack/" ++ name))
                  None None.

(** The listing fails (TestDetector_ListStacksError). *)
Definition denied_client : AWSClient :=
  {| ListActiveStacks := Err (errorString "access denied to list stacks");
     GetStackResources := λ _, Ok [signature_bucket];
     GetStackDetails := λ _, Ok None |}.

(** One stack among three fails its resource fetch (scenario 4). *)
Definition selective_client : AWSClient :=
  {| ListActiveStacks := Ok [candidate "good-stack"; candidate "failing-stack"; candidate "other-stack"];
     GetStackResources := λ stackName,
       if String.eqb stackName "failing-stack"
       then Err (errorString "resource access failed for failing-stack")
       else Ok [signature_bucket];
     GetStackDetails := λ _, Ok None |}.

(** The detail fetch fails (TestDetector_GetDetailsError, scenario 5). *)
Definition no_details_client : AWSClient :=
  {| ListActiveStacks := Ok [candidate "test-stack"];
     GetStackResources := λ _, Ok [signature_bucket];
     GetStackDetails := λ _, Err (errorString "stack details not accessible") |}.

(** A clock reading: 2023-10-01 12:34:56 UTC, in nanoseconds from the zero
    instant. *)
Definition a_clock_reading : Time := 63831760496000000000%Z.

Definition selective_detector : Detector := NewDetector selective_client "us-east-1".

Definition no_details_detector : Detector := NewDetector no_details_client "us-east-1".

(** What the coordinator reports for the candidate [name] when it has no
    detail record and the clock reads [a_clock_reading]. *)
Definition reported (name : string) : models.Stack :=
  {| models.StackName := name;
     models.StackID := "arn:aws:cloudformation:us-east-1:123456789012:stack/" ++ name;
     models.Region := "us-east-1";
     models.CreatedAt := a_clock_reading;
     models.UpdatedAt := a_clock_reading;
     models.Description := "";
     models.StackTags := Some ∅;
     models.Reasons := ["Contains resource with logical ID 'ServerlessDeploymentBucket'"] |}.

(** The entries of a tag map, listed by increasing key. *)
Definition entries_by_key (tags : option (gmap string string)) : list (string * string) :=
  let m := default ∅ tags in
  (λ k, (k, default "" (m !! k))) <$> merge_sort String.le ((map_to_list m).*1).

(** A formatting of timestamps, for the examples: the count of
    nanoseconds is not printed, only whether it is before or after the
    year 2000. *)
Definition toy_RFC3339 (t : Time) : string :=
  if (t <? 63082281600000000000)%Z then "1999-12-31T23:59:59Z" else "2000-01-01T00:00:00Z".

(** What a worker still has to do before it returns, counted in moves,
    its share of the queue left out; and the moves left in a pool. *)
Definition moves_left (w : Worker) : nat :=
  match w with
  | Ranging => 1
  | Processing _ => 2
  | Returned => 0
  end.

Definition pool_moves_left (p : Pool) : nat :=
  2 * length (jobs p) + sum_list_with moves_left (workers p).

(** * Further definitions: the rest of the detector, the formatters, the
      configuration, the entry point and the AWS client wrappers *)

(** ** Statements about the detector *)

(** An engine as the program builds one: [NewRuleEngine], then [AddRule]
    for each rule of [added], in order. *)
Definition engine_with {St : Type} (added : list (DetectionRule St)) : RuleEngine St :=
  fold_left AddRule added NewRuleEngine.

(** The candidates [processStack] reports: a name, resources that could
    be fetched, and a match of the engine on them. *)
Definition detects (d : Detector) (summary : StackSummary.t) : bool :=
  match StackSummary.StackName summary with
  | None => false
  | Some stackName =>
      match GetStackResources (client d) stackName with
      | Err _ => false
      | Ok resources => (Evaluate (ruleEngine d) resources (details_of d stackName) tt).1.1
      end
  end.

Definition name_of (summary : StackSummary.t) : string :=
  default "" (StackSummary.StackName summary).

(** The single-worker pool keeps the candidates in the order of the
    listing. *)
Definition ordered_inv (d : Detector) (summaries : list StackSummary.t) (p : Pool) : Prop :=
  ∃ done,
    results p = outcomes d done ∧
    (done.*1 ++ busy (workers p) ++ jobs p)%list = summaries.

(** The detector of scenario 4 with a pool of one worker. *)
Definition single_worker_detector : Detector :=
  {| client := selective_client; region := "us-east-1";
     ruleEngine := NewRuleEngine; maxWorkers := 1 |}.

(** ** output: formatter.go, the formatters and their factory *)

(** The two implementations of the interface [Formatter]. *)
Inductive Formatter :=
| JSONFormatter
| TSVFormatter.

(** [fmt.Errorf] without the verb [%w] builds an error that wraps
    nothing. *)
Definition FormatterFactory (format : string) : result Formatter :=
  if String.eqb format "json" then Ok JSONFormatter
  else if String.eqb format "tsv" then Ok TSVFormatter
  else Err (errorString ("unsupported output format: " ++ format
                         ++ " (supported formats: json, tsv)")).

(** The occurrences of a byte in a string. *)
Fixpoint count_byte (c : ascii) (s : string) : nat :=
  match s with
  | EmptyString => 0
  | String x rest => (if Ascii.eqb x c then 1 else 0) + count_byte c rest
  end.

(** ** config: config.go *)

Module config.

Record AssumeRoleConfig := mkAssumeRoleConfig {
  RoleARN : string;
  SessionName : string;
  Duration : Z;
  ExternalID : string
}.

Record Config := mkConfig {
  Profile : string;
  Region : string;
  OutputFormat : string;
  AssumeRole : option AssumeRoleConfig
}.

Definition ValidateOutputFormat (format : string) : bool :=
  if String.eqb format "json" then true
  else if String.eqb format "tsv" then true
  else false.

(** [Duration] is an [int32]; the verb [%d] prints it in decimal, with a
    minus sign when negative, as [pretty] does. *)
Definition Validate (arc : AssumeRoleConfig) : option error :=
  if String.eqb (RoleARN arc) "" then
    Some (errorString "role ARN cannot be empty when using AssumeRole")
  else if (Duration arc <? 900)%Z || (43200 <? Duration arc)%Z then
    Some (errorString ("session duration must be between 900 and 43200 seconds, got "
                       ++ pretty (Duration arc)))
  else if String.eqb (SessionName arc) "" then
    Some (errorString "session name cannot be empty")
  else None.

End config.

(** ** cmd/find_serverless_stacks: main.go *)

Module aws_auth.

(** The fields [createAWSClient] fills. *)
Record AssumeRoleCredentials := mkAssumeRoleCredentials {
  RoleARN : string;
  SessionName : string;
  Duration : Z;
  ExternalID : string
}.

Record AuthConfig := mkAuthConfig {
  Profile : string;
  Region : string;
  AssumeRole : option AssumeRoleCredentials
}.

End aws_auth.

(** The command-line flags, the package variables [runCommand] reads. *)
Record Flags := mkFlags {
  profile : string;
  flag_region : string;
  outputFormat : string;
  assumeRole : string;
  sessionName : string;
  duration : Z;
  externalID : string
}.

(** The chain [errors.Is] and [errors.As] walk: the error, then what it
    wraps, and so on. *)
Fixpoint chain (e : error) : list error :=
  match e with
  | errorString _ => [e]
  | wrapError _ cause => e :: chain cause
  end.

(** A client as [aws.CreateClient] hands it out.  It is a live
    connection to AWS: two calls of [ListActiveStacks] need not get the
    same answer.  [first_listing] is the answer to the first call, the one
    [createAWSClient] makes to check the credentials; [thereafter] is the
    client as it answers from then on, while the detection runs. *)
Record NewClient := mkNewClient {
  first_listing : result (list StackSummary.t);
  thereafter : AWSClient
}.

(** A client that answers every call alike. *)
Definition steady (client : AWSClient) : NewClient :=
  {| first_listing := ListActiveStacks client; thereafter := client |}.

Section Main.
(** [json.Marshal] of the envelope [StacksOutput], of the standard
    library; the slice it is given is never nil. *)
Variable Marshal : list models.Stack → result string.
Variable Format_RFC3339 : Time → string.
(** [aws.CreateClient], which loads the configuration of the SDK. *)
Variable CreateClient : aws_auth.AuthConfig → result NewClient.

Definition JSONFormatter_Format (stacks : list models.Stack) : result string :=
  match Marshal stacks with
  | Err err => Err (Errorf_w "failed to marshal JSON" err)
  | Ok jsonData => Ok jsonData
  end.

(** The method [Format] of a formatter. *)
Definition Formatter_Format (formatter : Formatter) (stacks : list models.Stack)
    : result string :=
  match formatter with
  | JSONFormatter => JSONFormatter_Format stacks
  | TSVFormatter =>
      match Format Format_RFC3339 stacks with
      | (output, Some err) => Err err
      | (output, None) => Ok output
      end
  end.

Definition formatOutput (stacks : list models.Stack) (format : string) : result string :=
  match FormatterFactory format with
  | Err err => Err (Errorf_w "failed to create formatter" err)
  | Ok formatter => Formatter_Format formatter stacks
  end.

(** [sched] is the interleaving of the detection, as for
    [DetectServerlessStacks]. *)
Definition runDetection (sched : list Event) (client : AWSClient) (cfg : config.Config)
    : option (result string) :=
  let d := NewDetector client (config.Region cfg) in
  match DetectServerlessStacks d sched with
  | None => None
  | Some (stacks, Some err) => Some (Err (Errorf_w "failed to detect serverless stacks" err))
  | Some (stacks, None) => Some (formatOutput stacks (config.OutputFormat cfg))
  end.

(** The [AuthConfig] that [createAWSClient] fills from the configuration. *)
Definition auth_of (cfg : config.Config) : aws_auth.AuthConfig :=
  {| aws_auth.Profile := config.Profile cfg;
     aws_auth.Region := config.Region cfg;
     aws_auth.AssumeRole :=
       match config.AssumeRole cfg with
       | Some arc =>
           Some {| aws_auth.RoleARN := config.RoleARN arc;
                   aws_auth.SessionName := config.SessionName arc;
                   aws_auth.Duration := config.Duration arc;
                   aws_auth.ExternalID := config.ExternalID arc |}
       | None => None
       end |}.

Definition createAWSClient (cfg : config.Config) : result AWSClient :=
  let auth := auth_of cfg in
  match CreateClient auth with
  | Err err => Err (Errorf_w "failed to create AWS client" err)
  | Ok client =>
      match first_listing client with
      | Err err => Err (Errorf_w "AWS credentials validation failed" err)
      | Ok _ => Ok (thereafter client)
      end
  end.

(** The configuration [runCommand] builds from the flags. *)
Definition config_of (f : Flags) : config.Config :=
  {| config.Profile := profile f;
     config.Region := flag_region f;
     config.OutputFormat := outputFormat f;
     config.AssumeRole :=
       if String.eqb (assumeRole f) "" then None
       else Some {| config.RoleARN := assumeRole f;
                    config.SessionName := sessionName f;
                    config.Duration := duration f;
                    config.ExternalID := externalID f |} |}.

(** [runCommand]: [Ok result] stands for the text printed and a nil
    error. *)
Definition runCommand (sched : list Event) (f : Flags) : option (result string) :=
  let cfg := config_of f in
  if negb (config.ValidateOutputFormat (config.OutputFormat cfg)) then
    Some (Err (errorString ("invalid output format '" ++ config.OutputFormat cfg
                            ++ "'. Supported formats: json, tsv")))
  else if String.eqb (config.Region cfg) "" then
    Some (Err (errorString "region is required"))
  else
    match (match config.AssumeRole cfg with
           | Some arc => config.Validate arc
           | None => None
           end) with
    | Some err => Some (Err (Errorf_w "AssumeRole configuration invalid" err))
    | None =>
        match createAWSClient cfg with
        | Err err => Some (Err (Errorf_w "failed to create AWS client" err))
        | Ok client =>
            match runDetection sched client cfg with
            | None => None
            | Some (Err err) => Some (Err (Errorf_w "detection failed" err))
            | Some (Ok result) => Some (Ok result)
            end
        end
    end.

End Main.

(** The data of the examples for the entry point. *)
Definition tsv_flags : Flags :=
  {| profile := "default"; flag_region := "us-east-1"; outputFormat := "tsv";
     assumeRole := "arn:aws:iam::123456789012:role/Scanner";
     sessionName := "find-serverless-stacks-session"; duration := 3600; externalID := "" |}.

Definition toy_Marshal (stacks : list models.Stack) : result string :=
  Ok "{}".

(** The flags pass the checks [runCommand] makes before it reaches AWS. *)
Definition valid_flags (f : Flags) : Prop :=
  (outputFormat f = "json" ∨ outputFormat f = "tsv") ∧
  flag_region f ≠ "" ∧
  (assumeRole f ≠ "" → (900 ≤ duration f ≤ 43200)%Z ∧ sessionName f ≠ "").

(** The error of the first check of [runCommand] that the flags fail:
    the format, the region, then, when a role is given, the duration and
    the session name. *)
Definition flag_error (f : Flags) : option error :=
  if negb (config.ValidateOutputFormat (outputFormat f)) then
    Some (errorString ("invalid output format '" ++ outputFormat f
                       ++ "'. Supported formats: json, tsv"))
  else if String.eqb (flag_region f) "" then
    Some (errorString "region is required")
  else if String.eqb (assumeRole f) "" then None
  else if (duration f <? 900)%Z || (43200 <? duration f)%Z then
    Some (Errorf_w "AssumeRole configuration invalid"
            (errorString ("session duration must be between 900 and 43200 seconds, got "
                          ++ pretty (duration f))))
  else if String.eqb (sessionName f) "" then
    Some (Errorf_w "AssumeRole configuration invalid"
            (errorString "session name cannot be empty"))
  else None.

(** A client whose credentials pass the check and whose listing is
    refused afterwards. *)
Definition revoked_client : NewClient :=
  {| first_listing := Ok []; thereafter := denied_client |}.

(** Flags with a format the program does not know. *)
Definition xml_flags : Flags :=
  {| profile := "test-profile"; flag_region := "us-east-1"; outputFormat := "xml";
     assumeRole := ""; sessionName := "find-serverless-stacks-session";
     duration := 3600; externalID := "" |}.

(** ** aws: types.go, the error of the package, and ratelimit.go *)

Module aws.

(** The errors the wrappers meet.  [Plain] is an error without cause;
    [APIError] implements [smithy.APIError] and carries its code, its
    message and its full text; [DeadlineExceeded] and [Canceled] are the
    two errors of the package [context]; [Wrapped] is made by [fmt.Errorf]
    with [%w]; [Custom] is the [*Error] of this package. *)
#[warnings="-register-all"]
Inductive err :=
| Plain (text : string)
| APIError (code message text : string)
| DeadlineExceeded
| Canceled
| Wrapped (text : string) (cause : err)
| Custom (Type' : string) (Message : string) (Cause : option err).

Definition ErrorTypePermission : string := "PERMISSION_DENIED".
Definition ErrorTypeInvalidRegion : string := "INVALID_REGION".
Definition ErrorTypeRateLimit : string := "RATE_LIMIT".
Definition ErrorTypeNetwork : string := "NETWORK_ERROR".
Definition ErrorTypeUnknown : string := "UNKNOWN_ERROR".

(** The method [Error]; for [Custom] it is [(e *Error).Error]. *)
Fixpoint Error (e : err) : string :=
  match e with
  | Plain text => text
  | APIError _ _ text => text
  | DeadlineExceeded => "context deadline exceeded"
  | Canceled => "context canceled"
  | Wrapped text _ => text
  | Custom _ Message (Some cause) => Message ++ ": " ++ Error cause
  | Custom _ Message None => Message
  end.

(** The method [Unwrap]; for [Custom] it is [(e *Error).Unwrap]. *)
Definition Unwrap (e : err) : option err :=
  match e with
  | Wrapped _ cause => Some cause
  | Custom _ _ Cause => Cause
  | _ => None
  end.

(** [errors.As] with a target of type [smithy.APIError]: the code and
    the message of the first error of the chain that implements it. *)
Fixpoint As_APIError (e : err) : option (string * string) :=
  match e with
  | APIError code message _ => Some (code, message)
  | Wrapped _ cause => As_APIError cause
  | Custom _ _ (Some cause) => As_APIError cause
  | _ => None
  end.

(** [errors.As] with a target of type [*Error]: the type of the first
    [*Error] of the chain. *)
Fixpoint As_Custom (e : err) : option string :=
  match e with
  | Custom Type' _ _ => Some Type'
  | Wrapped _ cause => As_Custom cause
  | _ => None
  end.

(** [errors.Is] with one of the two errors of [context] as target. *)
Fixpoint Is_DeadlineExceeded (e : err) : bool :=
  match e with
  | DeadlineExceeded => true
  | Wrapped _ cause => Is_DeadlineExceeded cause
  | Custom _ _ (Some cause) => Is_DeadlineExceeded cause
  | _ => false
  end.

Fixpoint Is_Canceled (e : err) : bool :=
  match e with
  | Canceled => true
  | Wrapped _ cause => Is_Canceled cause
  | Custom _ _ (Some cause) => Is_Canceled cause
  | _ => false
  end.

(** [strings.Contains] *)
Fixpoint Contains (s substr : string) : bool :=
  String.prefix substr s
  || match s with
     | EmptyString => false
     | String _ rest => Contains rest substr
     end.

(** [(r *RateLimitedClient).handleError]; [None] is the nil error. *)
Definition handleError (region : string) (err : option err) : option aws.err :=
  match err with
  | None => None
  | Some err =>
      let by_code :=
        match As_APIError err with
        | Some (code, message) =>
            if String.eqb code "AccessDenied" || String.eqb code "UnauthorizedOperation" then
              Some (Custom ErrorTypePermission "insufficient AWS permissions" (Some err))
            else if String.eqb code "Throttling" || String.eqb code "RequestLimitExceeded"
                    || String.eqb code "TooManyRequestsException" then
              Some (Custom ErrorTypeRateLimit "AWS API rate limit exceeded" (Some err))
            else if String.eqb code "InvalidParameterValue" then
              if Contains message "region" then
                Some (Custom ErrorTypeInvalidRegion ("invalid AWS region: " ++ region) (Some err))
              else None
            else None
        | None => None
        end in
      match by_code with
      | Some e => Some e
      | None =>
          if Is_DeadlineExceeded err || Is_Canceled err then
            Some (Custom ErrorTypeNetwork "request timeout or cancelled" (Some err))
          else
            let errMsg := Error err in
            if Contains errMsg "no such host" || Contains errMsg "connection refused"
               || Contains errMsg "timeout" then
              Some (Custom ErrorTypeNetwork "network connectivity issue" (Some err))
            else
              match As_Custom err with
              | Some _ => Some err
              | None => Some (Custom ErrorTypeUnknown "unexpected AWS API error" (Some err))
              end
      end
  end.

(** One call through the [RateLimitedClient]: [wait] is what
    [limiter.Wait] returns, [answer] what the wrapped client returns when
    it is called. *)
Definition limited {A} (region : string) (wait : option err)
    (answer : option A * option err) : option A * option err :=
  match wait with
  | Some err => (None, Some (Custom ErrorTypeRateLimit "rate limit context cancelled" (Some err)))
  | None => let '(output, err) := answer in (output, handleError region err)
  end.

Definition isRetryableError (errorType : string) : bool :=
  String.eqb errorType ErrorTypeRateLimit || String.eqb errorType ErrorTypeNetwork.

(** Two's complement on 64 bits, the arithmetic of [time.Duration]. *)
Definition wrap64 (z : Z) : Z := ((z + 2 ^ 63) mod 2 ^ 64 - 2 ^ 63)%Z.

(** [time.Duration(1<<uint(attempt)) * time.Second], in nanoseconds. *)
Definition backoffDuration (attempt : nat) : Z :=
  wrap64 (wrap64 (Z.shiftl 1 (Z.of_nat attempt)) * 1000000000).

(** What a retry loop did: what it returns, how often it called the
    operation, and the arguments of its calls to [time.Sleep], in order. *)
Record Run (A : Type) := mkRun {
  result : option A;
  lastErr : option err;
  calls : nat;
  slept : list Z
}.
Arguments mkRun {A}.
Arguments result {A}.
Arguments lastErr {A}.
Arguments calls {A}.
Arguments slept {A}.

(** The loop of [retryListStacks], [retryDescribeStacks] and
    [retryDescribeStackResources], which differ by the type of the result
    only.  [operation k] is what the [k]-th call of the operation returns;
    [turns] counts the turns left, [attempt] is the loop variable. *)
Fixpoint retry_loop {A} (maxRetries : Z) (operation : nat → option A * option err)
    (turns attempt : nat) (result : option A) (lastErr : option err) (slept : list Z)
    : Run A :=
  match turns with
  | O => mkRun result lastErr attempt slept
  | S turns =>
      let '(result, lastErr) := operation attempt in
      match lastErr with
      | None => mkRun result None (S attempt) slept
      | Some e =>
          if match As_Custom e with
             | Some Type' => negb (isRetryableError Type')
             | None => false
             end
          then mkRun result lastErr (S attempt) slept
          else
            let slept :=
              if (Z.of_nat attempt <? maxRetries)%Z
              then (slept ++ [backoffDuration attempt])%list
              else slept in
            retry_loop maxRetries operation turns (S attempt) result lastErr slept
      end
  end.

(** The loop runs while [attempt <= maxRetries]: [maxRetries + 1] turns
    (none when [maxRetries] is negative). *)
Definition retry {A} (maxRetries : Z) (operation : nat → option A * option err) : Run A :=
  retry_loop maxRetries operation (Z.to_nat (maxRetries + 1)) 0 None None [].

(** The field [maxRetries] that [NewRetryableClient] sets. *)
Definition NewRetryableClient_maxRetries (maxRetries : Z) : Z :=
  if (maxRetries <=? 0)%Z then 3%Z else maxRetries.

(** A method of the [RetryableClient]: the retry loop around the method
    of its [RateLimitedClient].  [wait k] and [answer k] are what the
    limiter and the wrapped client return at the [k]-th call. *)
Definition retryable_call {A} (region : string) (maxRetries : Z)
    (wait : nat → option err) (answer : nat → option A * option err) : Run A :=
  retry maxRetries (λ k, limited region (wait k) (answer k)).

(** An answer that ends the loop: a success, or an [*Error] whose type
    is not retried. *)
Definition stops {A} (outcome : option A * option err) : bool :=
  match outcome.2 with
  | None => true
  | Some e =>
      match As_Custom e with
      | Some Type' => negb (isRetryableError Type')
      | None => false
      end
  end.

End aws.

(** ** The data of the examples for the retry loop *)

Definition access_denied : aws.err :=
  aws.Wrapped "operation error CloudFormation: ListStacks, api error AccessDenied: no"
    (aws.APIError "AccessDenied" "no" "api error AccessDenied: no").

Definition throttled : aws.err :=
  aws.APIError "Throttling" "Rate exceeded" "api error Throttling: Rate exceeded".

(** An operation that is throttled twice, then answers. *)
Definition third_time_lucky (k : nat) : option string * option aws.err :=
  if (k <? 2)%nat
  then (None, Some (aws.Custom aws.ErrorTypeRateLimit "AWS API rate limit exceeded"
                      (Some throttled)))
  else (Some "page", None).

(** An operation that is always throttled. *)
Definition always_throttled (k : nat) : option string * option aws.err :=
  (None, Some (aws.Custom aws.ErrorTypeRateLimit "AWS API rate limit exceeded"
                 (Some throttled))).

(** * Theorems *)

(** ** The signature-bucket rule *)

Lemma deref_eq_true p s : deref_eq p s = true ↔ p = Some s.
Proof.
  destruct p as [v|]; simpl.
  - rewrite String.eqb_eq. split; [intros ->; reflexivity | intros [= ->]; reflexivity].
  - split; discriminate.
Qed.

Lemma hasServerlessDeploymentBucket_true resources :
  hasServerlessDeploymentBucket resources = true ↔ ∃ r, r ∈ resources ∧ is_signature_bucket r.
Proof.
  unfold is_signature_bucket.
  induction resources as [|r rest IH]; simpl.
  - split; [discriminate | intros (r & Hr & _); inversion Hr].
  - destruct (deref_eq (StackResource.LogicalResourceId r) _
              && deref_eq (StackResource.ResourceType r) _) eqn:E.
    + split; [intros _ | reflexivity].
      apply andb_true_iff in E as [E1 E2].
      apply deref_eq_true in E1, E2.
      exists r. split; [left | auto].
    + rewrite IH. split.
      * intros (x & Hx & H). exists x. split; [right; exact Hx | exact H].
      * intros (x & Hx & H1 & H2).
        apply elem_of_cons in Hx as [-> | Hx]; [|exists x; auto].
        apply deref_eq_true in H1, H2. rewrite H1, H2 in E. discriminate.
  Qed.

(** C1. The built-in rule matches exactly when some resource has the
    logical identifier ['ServerlessDeploymentBucket'] and the type
    ['AWS::S3::Bucket'], both equal as strings; a match carries the fixed
    reason, a stack without resources and a resource meeting one condition
    only do not match. *)
Theorem signature_bucket_rule (resources : list StackResource.t) (details : option StackDetail.t) :
  let '(matches, reason) := ServerlessDeploymentBucketRule_Check resources details in
  (matches = true ↔ ∃ r, r ∈ resources ∧ is_signature_bucket r) ∧
  reason = (if matches
            then "Contains resource with logical ID 'ServerlessDeploymentBucket'"
            else "") ∧
  ServerlessDeploymentBucketRule_Check [] details = (false, "") ∧
  (∀ id ty phys,
     (id ≠ Some "ServerlessDeploymentBucket" ∨ ty ≠ Some "AWS::S3::Bucket") →
     ServerlessDeploymentBucketRule_Check [StackResource.mk id phys ty] details = (false, "")).
Proof.
  unfold ServerlessDeploymentBucketRule_Check.
  destruct (hasServerlessDeploymentBucket resources) eqn:E.
  - rewrite <- hasServerlessDeploymentBucket_true, E.
    repeat split; try reflexivity.
    intros id ty phys H. simpl.
    destruct (deref_eq id _) eqn:E1; destruct (deref_eq ty _) eqn:E2; simpl; try reflexivity.
    apply deref_eq_true in E1, E2. destruct H as [H | H]; congruence.
  - rewrite <- hasServerlessDeploymentBucket_true, E.
    repeat split; try reflexivity; try discriminate.
    intros id ty phys H. simpl.
    destruct (deref_eq id _) eqn:E1; destruct (deref_eq ty _) eqn:E2; simpl; try reflexivity.
    apply deref_eq_true in E1, E2. destruct H as [H | H]; congruence.
Qed.

(** The comparison is on bytes: another letter case, a prefix or a suffix
    of the identifier does not match. *)
Example signature_bucket_rule_exact :
  hasServerlessDeploymentBucket
    [ StackResource.mk (Some "serverlessdeploymentbucket") None (Some "AWS::S3::Bucket");
      StackResource.mk (Some "ServerlessDeploymentBucket2") None (Some "AWS::S3::Bucket");
      StackResource.mk (Some "MyServerlessDeploymentBucket") None (Some "AWS::S3::Bucket");
      StackResource.mk (Some "ServerlessDeploymentBucket") None (Some "AWS::Lambda::Function");
      StackResource.mk None None (Some "AWS::S3::Bucket");
      StackResource.mk (Some "ServerlessDeploymentBucket") None None ] = false.
Proof. reflexivity. Qed.

(** ** The rule engine *)

Section RuleTheorems.
Context {St : Type}.
Implicit Types (re : RuleEngine St) (rule : DetectionRule St) (h : St).

Lemma Evaluate_loop (rs : list (DetectionRule St)) resources details b acc h :
  fold_left (Evaluate_step resources details) rs ((b, acc), h) =
  let '(l, h') := answers rs resources details h in
  ((b || existsb fst l, (acc ++ (List.filter fst l).*2)%list), h').
Proof.
  revert b acc h. induction rs as [|rule rest IH]; intros b acc h; simpl.
  - rewrite orb_false_r, app_nil_r. reflexivity.
  - destruct (Check rule resources details h) as [[matches reason] h'] eqn:E.
    destruct matches; rewrite IH;
      destruct (answers rest resources details h') as [l h'']; simpl.
    + rewrite orb_true_r, <- app_assoc. reflexivity.
    + reflexivity.
Qed.

Lemma Evaluate_answers re resources details h :
  Evaluate re resources details h =
  let '(l, h') := answers (rules re) resources details h in
  ((existsb fst l, (List.filter fst l).*2), h').
Proof. unfold Evaluate. rewrite Evaluate_loop. reflexivity. Qed.

Lemma filter_fst_nil (l : list (bool * string)) :
  existsb fst l = true ↔ (List.filter fst l).*2 ≠ [].
Proof.
  induction l as [|[b s] l IH]; simpl.
  - split; [discriminate | congruence].
  - destruct b; simpl; [split; [discriminate | reflexivity] | exact IH].
Qed.

(** C2. The verdict of [Evaluate]: [isMatch] holds exactly when the list
    of reasons is not empty, and the reasons are those of the rules that
    matched, one each, in the order of registration ([AddRule] appends). *)
Theorem Evaluate_verdict re resources details h :
  let '((isMatch, reasons), _) := Evaluate re resources details h in
  (isMatch = true ↔ reasons ≠ []) ∧
  reasons = (List.filter fst (answers (rules re) resources details h).1).*2 ∧
  length (answers (rules re) resources details h).1 = length (rules re) ∧
  (∀ rule, rules (AddRule re rule) = (rules re ++ [rule])%list).
Proof.
  rewrite Evaluate_answers.
  assert (Hlen : ∀ rs h0, length (answers rs resources details h0).1 = length rs).
  { induction rs as [|r rs IH]; intros h0; simpl; [reflexivity|].
    destruct (Check r resources details h0) as [a h'].
    specialize (IH h'). destruct (answers rs resources details h') as [l h'']. simpl in *.
    congruence. }
  specialize (Hlen (rules re) h).
  destruct (answers (rules re) resources details h) as [l h']. simpl in *.
  split; [apply filter_fst_nil|]. split; [reflexivity|]. split; [exact Hlen | reflexivity].
Qed.

Lemma answers_pure (rs : list (DetectionRule St)) resources details :
  Forall pure_rule rs → ∃ l, ∀ h, answers rs resources details h = (l, h).
Proof.
  induction 1 as [|rule rest [f Hf] _ [l Hl]]; simpl.
  - exists []. reflexivity.
  - exists (f resources details :: l). intros h. rewrite Hf, Hl. reflexivity.
Qed.

(** C8. When every registered rule is pure, the verdict is a function of
    [(resources, details)], the store is left as it was, and a second
    run gives the verdict of the first. *)
Theorem Evaluate_idempotent re resources details :
  Forall pure_rule (rules re) →
  (∃ verdict, ∀ h, Evaluate re resources details h = (verdict, h)) ∧
  (∀ h, let '(verdict1, h1) := Evaluate re resources details h in
        let '(verdict2, h2) := Evaluate re resources details h1 in
        verdict1 = verdict2 ∧ h2 = h1).
Proof.
  intros Hpure.
  destruct (answers_pure (rules re) resources details Hpure) as [l Hl].
  assert (H : ∀ h, Evaluate re resources details h
                   = ((existsb fst l, (List.filter fst l).*2), h)).
  { intros h. rewrite Evaluate_answers, Hl. reflexivity. }
  split; [eexists; exact H|].
  intros h. rewrite !H. split; reflexivity.
Qed.

Lemma ServerlessDeploymentBucketRule_pure : pure_rule (ServerlessDeploymentBucketRule (St := St)).
Proof. exists ServerlessDeploymentBucketRule_Check. reflexivity. Qed.

Lemma NewRuleEngine_pure : Forall pure_rule (rules (NewRuleEngine (St := St))).
Proof. repeat constructor. apply ServerlessDeploymentBucketRule_pure. Qed.

End RuleTheorems.

Lemma Evaluate_idempotent_witness :
  Forall pure_rule (rules (NewRuleEngine (St := nat))) ∧
  ∀ h : nat,
    let '(verdict1, h1) := Evaluate NewRuleEngine my_api_dev_resources None h in
    let '(verdict2, h2) := Evaluate NewRuleEngine my_api_dev_resources None h1 in
    verdict1 = verdict2 ∧ h2 = h1.
Proof.
  split; [apply NewRuleEngine_pure|].
  apply (Evaluate_idempotent NewRuleEngine my_api_dev_resources None NewRuleEngine_pure).
Defined.

(** The premise of purity is needed: a rule that flips a flag kept in the
    store answers differently on the second run. *)

Example flipping_rule_two_runs :
  let '(verdict1, h1) := Evaluate (AddRule NewRuleEngine flipping_rule) [] None false in
  let '(verdict2, _) := Evaluate (AddRule NewRuleEngine flipping_rule) [] None h1 in
  verdict1 = (true, ["first sight"]) ∧ verdict2 = (false, []).
Proof. split; reflexivity. Qed.

(** ** The coordinator: the conversion to the result model *)

Section ConvertToModel.
Import models StackOps.

Lemma convertTags_fold tags stack :
  let stack' := fold_left convertTag tags stack in
  StackName stack' = StackName stack ∧ StackID stack' = StackID stack ∧
  Region stack' = Region stack ∧ CreatedAt stack' = CreatedAt stack ∧
  UpdatedAt stack' = UpdatedAt stack ∧ Description stack' = Description stack ∧
  Reasons stack' = Reasons stack ∧
  StackTags stack' =
    (λ m, foldr (λ kv m, <[kv.1 := kv.2]> m) m (reverse (tag_entries tags))) <$> StackTags stack.
Proof.
  revert stack. induction tags as [|tag rest IH]; intros stack.
  - cbn [fold_left]. repeat split; try reflexivity. destruct (StackTags stack); reflexivity.
  - cbn [fold_left]. cbv zeta in IH |- *.
    destruct (IH (convertTag stack tag)) as (H1 & H2 & H3 & H4 & H5 & H6 & H7 & H8).
    rewrite H1, H2, H3, H4, H5, H6, H7, H8. clear.
    unfold convertTag, tag_entries. cbn [omap list_omap].
    destruct stack as [n i r c u de t rs].
    destruct (Tag.Key tag) as [k|], (Tag.Value tag) as [v|];
      repeat split; try reflexivity.
    cbn [put_StackTag set_StackTags StackTags].
    rewrite reverse_cons, <- option_fmap_compose.
    apply option_fmap_ext. intros m. cbn [compose]. rewrite foldr_app. reflexivity.
Qed.

Lemma tag_entries_elem tags k v :
  (k, v) ∈ tag_entries tags ↔ Tag.mk (Some k) (Some v) ∈ tags.
Proof.
  unfold tag_entries. rewrite list_elem_of_omap. split.
  - intros ([[k'|] [v'|]] & Hin & Heq); cbn in Heq; try discriminate.
    injection Heq as -> ->. exact Hin.
  - intros Hin. eexists. split; [exact Hin | reflexivity].
Qed.

Ltac fields :=
  cbn [StackName StackID Region CreatedAt UpdatedAt Description StackTags Reasons
       when_set set_StackName set_StackID set_Region set_CreatedAt set_UpdatedAt
       set_Description set_StackTags set_Reasons zero default given
       source_CreationTime source_LastUpdatedTime mbind option_bind fmap option_fmap
       option_map] in *.

(** The fields of the converted stack, read off the code. *)
Lemma convertToModel_fields d now summary details reasons :
  let x := convertToModel d now summary details reasons in
  StackName x = default "" (StackSummary.StackName summary) ∧
  StackID x = default "" (StackSummary.StackId summary) ∧
  Region x = region d ∧
  Reasons x = reasons ∧
  Description x = default "" (details ≫= StackDetail.Description) ∧
  StackTags x = Some (list_to_map (reverse (tag_entries
                   (match details with Some det => StackDetail.Tags det | None => [] end)))) ∧
  CreatedAt x = default now (given (source_CreationTime summary details)) ∧
  UpdatedAt x = default (CreatedAt x) (given (source_LastUpdatedTime summary details)).
Proof.
  unfold convertToModel. cbv zeta.
  destruct details as [det|].
  - match goal with |- context [fold_left convertTag ?t ?s] =>
      pose proof (convertTags_fold t s) as H; cbv zeta in H;
      destruct H as (H1 & H2 & H3 & H4 & H5 & H6 & H7 & H8);
      set (stack' := fold_left convertTag t s) in *
    end.
    clearbody stack'. destruct stack' as [n i r c u de t rs].
    cbn [mbind option_bind source_CreationTime source_LastUpdatedTime].
    destruct (StackSummary.StackName summary), (StackSummary.StackId summary),
      (StackDetail.Description det),
      (StackDetail.CreationTime det) as [tc|], (StackDetail.LastUpdatedTime det) as [tu|].
    all: fields; subst n i r c u de t rs.
    all: change (IsZero 0%Z) with true in *; cbv iota; fields.
    all: try (destruct (IsZero tc) eqn:E1; fields).
    all: change (IsZero 0%Z) with true in *; cbv iota; fields.
    all: try (destruct (IsZero tu) eqn:E2; fields).
    all: try (destruct (IsZero now) eqn:E3; fields).
    all: repeat split; fields; rewrite ?E1, ?E2, ?E3; fields; reflexivity.
  - cbn [mbind option_bind source_CreationTime source_LastUpdatedTime].
    destruct (StackSummary.StackName summary), (StackSummary.StackId summary),
      (StackSummary.CreationTime summary) as [tc|], (StackSummary.LastUpdatedTime summary) as [tu|].
    all: fields.
    all: change (IsZero 0%Z) with true in *; cbv iota; fields.
    all: try (destruct (IsZero tc) eqn:E1; fields).
    all: change (IsZero 0%Z) with true in *; cbv iota; fields.
    all: try (destruct (IsZero tu) eqn:E2; fields).
    all: try (destruct (IsZero now) eqn:E3; fields).
    all: repeat split; fields; rewrite ?E1, ?E2, ?E3; fields; reflexivity.
Qed.

End ConvertToModel.

(** ** The coordinator: the worker pool *)

Section Pool.
Variable d : Detector.

Lemma collect_omap (rs : list (option models.Stack)) : collect rs = omap id rs.
Proof.
  unfold collect.
  assert (H : ∀ acc, fold_left (λ serverlessStacks result,
             match result with
             | Some stack => (serverlessStacks ++ [stack])%list
             | None => serverlessStacks
             end) rs acc = (acc ++ omap id rs)%list).
  { induction rs as [|[x|] rs IH]; intros acc; cbn [fold_left omap list_omap id].
    - rewrite app_nil_r. reflexivity.
    - rewrite IH, <- app_assoc. reflexivity.
    - apply IH. }
  apply H.
Qed.

Lemma busy_app ws1 ws2 : busy (ws1 ++ ws2) = (busy ws1 ++ busy ws2)%list.
Proof. apply omap_app. Qed.

Lemma workers_split (ws : list Worker) (i : nat) w :
  ws !! i = Some w →
  ws = (take i ws ++ w :: drop (S i) ws)%list ∧
  ∀ w', <[i := w']> ws = (take i ws ++ w' :: drop (S i) ws)%list.
Proof.
  intros H. split.
  - symmetry. apply take_drop_middle. exact H.
  - intros w'. apply insert_take_drop. eapply lookup_lt_Some. exact H.
Qed.

Lemma busy_receive (ws : list Worker) (i : nat) summary :
  ws !! i = Some Ranging → busy (<[i := Processing summary]> ws) ≡ₚ summary :: busy ws.
Proof.
  intros H. destruct (workers_split ws i _ H) as [Hs Hi].
  rewrite Hi. rewrite Hs at 3. rewrite !busy_app. cbn.
  symmetry. apply Permutation_middle.
Qed.

Lemma busy_send (ws : list Worker) (i : nat) summary :
  ws !! i = Some (Processing summary) → summary :: busy (<[i := Ranging]> ws) ≡ₚ busy ws.
Proof.
  intros H. destruct (workers_split ws i _ H) as [Hs Hi].
  rewrite Hi. rewrite Hs at 3. rewrite !busy_app. cbn.
  apply Permutation_middle.
Qed.

Lemma busy_return (ws : list Worker) (i : nat) :
  ws !! i = Some Ranging → busy (<[i := Returned]> ws) = busy ws.
Proof.
  intros H. destruct (workers_split ws i _ H) as [Hs Hi].
  rewrite Hi. rewrite Hs at 3. rewrite !busy_app. reflexivity.
Qed.

Lemma Returned_insert (ws : list Worker) (i : nat) w :
  ws !! i = Some w → w ≠ Returned → ∀ w', w' ≠ Returned →
  Returned ∈ <[i := w']> ws → Returned ∈ ws.
Proof.
  intros H Hw w' Hw' Hin.
  destruct (workers_split ws i _ H) as [Hs Hi].
  rewrite Hi in Hin. rewrite Hs.
  rewrite elem_of_app, elem_of_cons in Hin |- *.
  destruct Hin as [Hin | [Hin | Hin]]; auto. congruence.
Qed.

Lemma worker_step_inv T summaries p ev :
  T ev.2 → pool_inv d T summaries p → pool_inv d T summaries (worker_step d p ev).
Proof.
  destruct ev as [i now]. intros HT (done & Hres & HTd & Hperm & Hret).
  unfold worker_step.
  destruct (workers p !! i) as [[|summary|]|] eqn:Hw;
    [| | exists done; auto | exists done; auto].
  - destruct (jobs p) as [|summary rest] eqn:Hj.
    + exists done. cbn [jobs workers results]. repeat split; auto.
      rewrite (busy_return _ _ Hw). exact Hperm.
    + exists done. cbn [jobs workers results]. repeat split; auto.
      * rewrite (busy_receive _ _ _ Hw). rewrite <- Hperm.
        apply Permutation_app_head. apply (Permutation_middle (busy (workers p)) rest summary).
      * intros Hin. apply Returned_insert with (w := Ranging) in Hin;
          [|assumption|discriminate..].
        specialize (Hret Hin). discriminate.
  - exists (done ++ [(summary, now)])%list. cbn [jobs workers results]. repeat split.
    + unfold outcomes in *. rewrite fmap_app, Hres. reflexivity.
    + apply Forall_app. split; [exact HTd | repeat constructor; exact HT].
    + rewrite fmap_app. cbn [fmap list_fmap fst]. rewrite <- Hperm, <- (busy_send _ _ _ Hw).
      rewrite <- app_assoc. reflexivity.
    + intros Hin. apply Hret.
      apply Returned_insert with (w := Processing summary) in Hin; auto; discriminate.
Qed.

Lemma pool_run_inv T summaries sched p :
  Forall (λ ev : Event, T ev.2) sched →
  pool_inv d T summaries p →
  pool_inv d T summaries (fold_left (worker_step d) sched p).
Proof.
  intros Hs. revert p. induction Hs as [|ev sched Hev _ IH]; intros p Hp; cbn.
  - exact Hp.
  - apply IH. apply worker_step_inv; assumption.
Qed.

Lemma start_inv T summaries : pool_inv d T summaries (start d summaries).
Proof.
  exists []. cbn. repeat split; auto.
  - assert (H : ∀ n, busy (replicate n Ranging) = []) by (induction n; auto).
    rewrite H. reflexivity.
  - intros Hin. apply elem_of_replicate in Hin as [Hin _]. discriminate.
Qed.

Lemma worker_step_length p ev : length (workers (worker_step d p ev)) = length (workers p).
Proof.
  destruct ev as [i now]. unfold worker_step.
  destruct (workers p !! i) as [[|summary|]|]; [destruct (jobs p)| | |];
    cbn; rewrite ?length_insert; reflexivity.
Qed.

Lemma pool_run_length sched p :
  length (workers (fold_left (worker_step d) sched p)) = length (workers p).
Proof.
  revert p. induction sched as [|ev sched IH]; intros p; cbn; [reflexivity|].
  rewrite IH. apply worker_step_length.
Qed.

Lemma all_Returned ws :
  forallb is_Returned ws = true → busy ws = [] ∧ (ws ≠ [] → Returned ∈ ws).
Proof.
  induction ws as [|[| |] ws IH]; cbn; try discriminate.
  - split; [reflexivity | congruence].
  - intros H. destruct (IH H) as [Hb _]. split; [exact Hb | intros _; left].
Qed.

Lemma omap_outcomes done :
  omap id (outcomes d done) = omap (λ st, processStack d st.2 st.1) done.
Proof.
  unfold outcomes. induction done as [|st done IH]; cbn; [reflexivity|].
  rewrite IH. reflexivity.
Qed.

Lemma numWorkers_min summaries :
  numWorkers d summaries = Z.min (maxWorkers d) (Z.of_nat (length summaries)).
Proof. unfold numWorkers. cbv zeta. destruct (Z.ltb_spec (Z.of_nat (length summaries)) (maxWorkers d)); lia. Qed.

(** What a completed run returns: no error, and the non-nil outcomes of
    candidates of the list, each taken at most once; with a positive pool
    size, of every candidate exactly once. *)
Lemma processStacksConcurrently_outcome T sched summaries out err :
  Forall (λ ev : Event, T ev.2) sched →
  processStacksConcurrently d sched summaries = Some (out, err) →
  err = None ∧
  ∃ done : list (StackSummary.t * Time),
    Forall (λ st, T st.2) done ∧
    out = omap (λ st, processStack d st.2 st.1) done ∧
    done.*1 ⊆+ summaries ∧
    ((0 < maxWorkers d)%Z → done.*1 ≡ₚ summaries).
Proof.
  intros Hs. unfold processStacksConcurrently. cbv zeta.
  pose proof (pool_run_inv T summaries sched _ Hs (start_inv T summaries))
    as (done & Hres & HT & Hperm & Hret).
  pose proof (pool_run_length sched (start d summaries)) as Hlen.
  set (p := fold_left (worker_step d) sched (start d summaries)) in *.
  destruct (forallb is_Returned (workers p)) eqn:Hall; [|discriminate].
  intros [= <- <-]. split; [reflexivity|].
  destruct (all_Returned _ Hall) as [Hbusy Hin].
  rewrite Hbusy in Hperm. cbn [app] in Hperm.
  exists done. split; [exact HT|]. split.
  - rewrite collect_omap, Hres. apply omap_outcomes.
  - split.
    + rewrite <- Hperm. apply submseteq_inserts_r. reflexivity.
    + intros Hpos. destruct summaries as [|s0 summaries'].
      * apply Permutation_nil_r in Hperm. apply app_eq_nil in Hperm as [-> _]. reflexivity.
      * rewrite Hret in Hperm; [rewrite app_nil_r in Hperm; exact Hperm|].
        apply Hin. intros Hnil. rewrite Hnil in Hlen. cbn [start workers length] in Hlen.
        rewrite length_replicate, numWorkers_min in Hlen. cbn [length] in Hlen. lia.
Qed.

Lemma step_receive now i summary rest (ws : list Worker) res :
  ws !! i = Some Ranging →
  worker_step d (mkPool (summary :: rest) ws res) (i, now)
  = mkPool rest (<[i := Processing summary]> ws) res.
Proof. intros H. unfold worker_step. cbn [jobs workers results]. rewrite H. reflexivity. Qed.

Lemma step_send now i summary js (ws : list Worker) res :
  ws !! i = Some (Processing summary) →
  worker_step d (mkPool js ws res) (i, now)
  = mkPool js (<[i := Ranging]> ws) (res ++ [processStack d now summary])%list.
Proof. intros H. unfold worker_step. cbn [jobs workers results]. rewrite H. reflexivity. Qed.

Lemma step_return now i (ws : list Worker) res :
  ws !! i = Some Ranging →
  worker_step d (mkPool [] ws res) (i, now) = mkPool [] (<[i := Returned]> ws) res.
Proof. intros H. unfold worker_step. cbn [jobs workers results]. rewrite H. reflexivity. Qed.

Lemma drain now (js : list StackSummary.t) (ws : list Worker) res :
  ws !! 0 = Some Ranging →
  fold_left (worker_step d) (mjoin (replicate (length js) [(0, now); (0, now)]))
            (mkPool js ws res)
  = mkPool [] ws (res ++ (processStack d now <$> js))%list.
Proof.
  intros Hw. revert res. induction js as [|summary rest IH]; intros res.
  - cbn. rewrite app_nil_r. reflexivity.
  - cbn [length replicate mjoin list_join app fold_left].
    rewrite (step_receive _ _ _ _ _ _ Hw).
    rewrite (step_send now 0 summary)
      by (apply list_lookup_insert_eq; eapply lookup_lt_Some; exact Hw).
    rewrite list_insert_insert_eq, (list_insert_id _ _ _ Hw).
    rewrite IH. cbn [fmap list_fmap]. rewrite <- app_assoc. reflexivity.
Qed.

Lemma retire now res (m k : nat) :
  fold_left (worker_step d) ((λ i, (i, now)) <$> seq k m)
            (mkPool [] (replicate k Returned ++ replicate m Ranging) res)
  = mkPool [] (replicate (k + m) Returned) res.
Proof.
  revert k. induction m as [|m IH]; intros k.
  - cbn. rewrite app_nil_r, Nat.add_0_r. reflexivity.
  - cbn [seq fmap list_fmap fold_left].
    assert (Hk : (replicate k Returned ++ replicate (S m) Ranging)%list !! k = Some Ranging).
    { rewrite lookup_app_r by (rewrite length_replicate; lia).
      rewrite length_replicate, Nat.sub_diag. reflexivity. }
    rewrite (step_return _ _ _ _ Hk).
    rewrite insert_app_r_alt by (rewrite length_replicate; lia).
    rewrite length_replicate, Nat.sub_diag. cbn [replicate insert list_insert].
    rewrite (cons_middle Returned), app_assoc.
    change [Returned] with (replicate 1 Returned).
    rewrite <- replicate_add, Nat.add_1_r.
    rewrite (IH (S k)). f_equal. f_equal. lia.
Qed.

Lemma no_worker sched js res :
  fold_left (worker_step d) sched (mkPool js [] res) = mkPool js [] res.
Proof. induction sched as [|[i now] sched IH]; cbn; [reflexivity | exact IH]. Qed.

(** The sequential schedule completes: the coordinator returns. *)
Lemma sequential_completes now summaries :
  processStacksConcurrently d
    (sequential now (length summaries) (Z.to_nat (numWorkers d summaries))) summaries
  = Some (if decide (0 < numWorkers d summaries)%Z
          then omap (processStack d now) summaries else [], None).
Proof.
  unfold processStacksConcurrently, sequential, start. cbv zeta.
  destruct (Z.to_nat (numWorkers d summaries)) as [|w] eqn:Hw.
  - rewrite no_worker. cbn. destruct (decide _); [lia | reflexivity].
  - rewrite fold_left_app, drain by reflexivity.
    rewrite (retire now _ (S w) 0). cbn [workers results app].
    assert (H : forallb is_Returned (replicate (0 + S w) Returned) = true).
    { generalize (0 + S w)%nat. induction n; cbn; auto. }
    rewrite H. destruct (decide _); [|lia].
    rewrite collect_omap. f_equal. f_equal. cbn [app].
    clear. induction summaries as [|s l IH]; cbn; [reflexivity|].
    rewrite IH. reflexivity.
Qed.

End Pool.

(** ** The coordinator: every run can be completed *)

Section Progress.
Variable d : Detector.

Lemma moves_left_insert (ws : list Worker) (i : nat) w w' :
  ws !! i = Some w →
  (sum_list_with moves_left (<[i := w']> ws) + moves_left w
   = sum_list_with moves_left ws + moves_left w')%nat.
Proof.
  intros H. destruct (workers_split ws i w H) as [Hs Hi].
  rewrite Hi. rewrite Hs at 3.
  rewrite !sum_list_with_app. cbn [sum_list_with]. lia.
Qed.

Lemma worker_step_moves p i now w :
  workers p !! i = Some w → w ≠ Returned →
  (pool_moves_left (worker_step d p (i, now)) < pool_moves_left p)%nat.
Proof.
  intros Hw Hne. unfold worker_step, pool_moves_left. rewrite Hw.
  destruct w as [|summary|]; [| |congruence].
  - destruct (jobs p) as [|summary rest]; cbn [jobs workers length].
    + pose proof (moves_left_insert _ _ _ Returned Hw). cbn [moves_left] in *. lia.
    + pose proof (moves_left_insert _ _ _ (Processing summary) Hw). cbn [moves_left] in *. lia.
  - cbn [jobs workers].
    pose proof (moves_left_insert _ _ _ Ranging Hw). cbn [moves_left] in *. lia.
Qed.

Lemma not_all_Returned (ws : list Worker) :
  forallb is_Returned ws = false → ∃ i w, ws !! i = Some w ∧ w ≠ Returned.
Proof.
  induction ws as [|w ws IH]; [discriminate|].
  cbn [forallb]. destruct w as [|summary|].
  - intros _. exists 0%nat, Ranging. split; [reflexivity | discriminate].
  - intros _. exists 0%nat, (Processing summary). split; [reflexivity | discriminate].
  - cbn [is_Returned andb]. intros H. destruct (IH H) as (i & w & Hi & Hw).
    exists (S i), w. split; assumption.
Qed.

(** From any state of the pool some moves lead every worker to return:
    no state is a deadlock. *)
Lemma pool_progress now (n : nat) (p : Pool) :
  (pool_moves_left p ≤ n)%nat →
  ∃ more : list Event,
    Forall (λ ev, ev.2 = now) more ∧
    forallb is_Returned (workers (fold_left (worker_step d) more p)) = true.
Proof.
  revert p. induction n as [|n IH]; intros p Hn.
  - destruct (forallb is_Returned (workers p)) eqn:Hall.
    + exists []. split; [constructor | exact Hall].
    + destruct (not_all_Returned _ Hall) as (i & w & Hi & Hw).
      pose proof (worker_step_moves p i now w Hi Hw). lia.
  - destruct (forallb is_Returned (workers p)) eqn:Hall.
    + exists []. split; [constructor | exact Hall].
    + destruct (not_all_Returned _ Hall) as (i & w & Hi & Hw).
      pose proof (worker_step_moves p i now w Hi Hw) as Hlt.
      destruct (IH (worker_step d p (i, now))) as (more & Hmore & Hdone); [lia|].
      exists ((i, now) :: more). split; [constructor; [reflexivity | exact Hmore] | exact Hdone].
Qed.

Lemma run_can_complete now sched summaries :
  ∃ more out,
    Forall (λ ev : Event, ev.2 = now) more ∧
    processStacksConcurrently d (sched ++ more) summaries = Some (out, None).
Proof.
  destruct (pool_progress now _ (fold_left (worker_step d) sched (start d summaries))
              (Nat.le_refl _)) as (more & Hmore & Hdone).
  exists more. eexists. split; [exact Hmore|].
  unfold processStacksConcurrently. cbv zeta. rewrite fold_left_app, Hdone. reflexivity.
Qed.

End Progress.

(** ** The coordinator: what [processStack] and [DetectServerlessStacks] return *)

Section Coordinator.
Import models.
Variable d : Detector.

Lemma processStack_skipped now summary :
  skipped d summary = true → processStack d now summary = None.
Proof.
  unfold skipped, processStack.
  destruct (StackSummary.StackName summary) as [name|]; [|reflexivity].
  destruct (GetStackResources (client d) name); [discriminate | reflexivity].
Qed.

Lemma processStack_Some now summary x :
  processStack d now summary = Some x →
  ∃ name resources reasons,
    StackSummary.StackName summary = Some name ∧
    GetStackResources (client d) name = Ok resources ∧
    Evaluate (ruleEngine d) resources (details_of d name) tt = ((true, reasons), tt) ∧
    x = convertToModel d now summary (details_of d name) reasons.
Proof.
  unfold processStack, details_of.
  destruct (StackSummary.StackName summary) as [name|]; [|discriminate].
  destruct (GetStackResources (client d) name) as [resources|] eqn:Hr; [|discriminate].
  cbv zeta.
  destruct (Evaluate _ _ _ _) as [[isServerless reasons] []] eqn:E.
  destruct isServerless; [|discriminate].
  intros [= <-]. exists name, resources, reasons. repeat split; auto.
Qed.

Lemma processStack_match now summary name resources reasons :
  StackSummary.StackName summary = Some name →
  GetStackResources (client d) name = Ok resources →
  Evaluate (ruleEngine d) resources (details_of d name) tt = ((true, reasons), tt) →
  processStack d now summary = Some (convertToModel d now summary (details_of d name) reasons).
Proof.
  unfold processStack, details_of. intros -> -> E. cbv zeta. rewrite E. reflexivity.
Qed.

(** Every reported stack is what [processStack] made of a candidate of
    the listing, at a clock reading of the schedule. *)
Lemma detect_elem T sched summaries out err x :
  Forall (λ ev : Event, T ev.2) sched →
  ListActiveStacks (client d) = Ok summaries →
  DetectServerlessStacks d sched = Some (out, err) →
  x ∈ out →
  ∃ now summary, T now ∧ summary ∈ summaries ∧ processStack d now summary = Some x.
Proof.
  intros Hs Hl. unfold DetectServerlessStacks. rewrite Hl. intros Hrun Hx.
  destruct (processStacksConcurrently_outcome d T sched summaries out err Hs Hrun)
    as (_ & done & HT & -> & Hsub & _).
  apply list_elem_of_omap in Hx as ([summary now] & Hin & Hp).
  exists now, summary. repeat split.
  - rewrite Forall_forall in HT. apply (HT _ Hin).
  - eapply elem_of_submseteq; [|exact Hsub].
    apply list_elem_of_fmap. exists (summary, now). auto.
  - exact Hp.
Qed.

End Coordinator.

(** ** The coordinator: errors *)

(** C3, as the claim words it, fails: the listing error comes back as it
    is, no wrapper is put around it. *)
Lemma detect_listing_error_not_wrapped :
  ¬ (∀ (d : Detector) (sched : list Event) (e : error),
       ListActiveStacks (client d) = Err e →
       ∃ out msg, DetectServerlessStacks d sched = Some (out, Some (wrapError msg e))).
Proof.
  intros H.
  destruct (H (NewDetector denied_client "us-east-1") [] _ eq_refl) as (out & msg & Hd).
  discriminate Hd.
Qed.

(** C3, amended.  [DetectServerlessStacks] returns an error exactly when
    the listing fails, and the error it returns is the listing error
    itself, unchanged; when the listing succeeds no schedule yields an
    error, whatever the per-stack fetches answer, and every run can be
    continued until the call returns. *)
Theorem detect_error_iff_listing_fails (d : Detector) (sched : list Event) :
  (∀ e, ListActiveStacks (client d) = Err e →
        DetectServerlessStacks d sched = Some ([], Some e)) ∧
  (∀ out err, DetectServerlessStacks d sched = Some (out, err) →
        (err ≠ None ↔ ∃ e, ListActiveStacks (client d) = Err e) ∧
        (∀ e, err = Some e → ListActiveStacks (client d) = Err e)) ∧
  (∀ summaries, ListActiveStacks (client d) = Ok summaries →
        ∃ more out, DetectServerlessStacks d (sched ++ more) = Some (out, None)).
Proof.
  unfold DetectServerlessStacks.
  destruct (ListActiveStacks (client d)) as [summaries|e0] eqn:Hl.
  - split; [discriminate|]. split.
    + intros out err Hrun.
      destruct (processStacksConcurrently_outcome d (λ _, True) sched summaries out err)
        as [-> _]; [apply Forall_forall; auto | exact Hrun |].
      split; [|discriminate]. split; [congruence | intros [e He]; discriminate].
    + intros ? [= <-].
      destruct (run_can_complete d 0%Z sched summaries) as (more & out & _ & Hrun).
      exists more, out. exact Hrun.
  - split; [intros e [= <-]; reflexivity|]. split.
    + intros out err [= <- <-]. split.
      * split; [eauto | discriminate].
      * intros e [= <-]. reflexivity.
    + discriminate.
Qed.

(** ** The coordinator: the worker count and the empty listing *)

(** C7. The worker count is the minimum of the pool size (10 for a new
    detector) and the number of candidates; an empty listing gives an empty
    result and no error under every schedule, the empty one included. *)
Theorem worker_count_clamped (d : Detector) (summaries : list StackSummary.t) :
  numWorkers d summaries = Z.min (maxWorkers d) (Z.of_nat (length summaries)) ∧
  ((Z.of_nat (length summaries) < maxWorkers d)%Z →
     numWorkers d summaries = Z.of_nat (length summaries)) ∧
  length (workers (start d summaries)) = Z.to_nat (numWorkers d summaries) ∧
  (∀ c r, maxWorkers (NewDetector c r) = 10%Z) ∧
  (∀ sched, processStacksConcurrently d sched [] = Some ([], None)) ∧
  (∀ sched, ListActiveStacks (client d) = Ok [] →
            DetectServerlessStacks d sched = Some ([], None)).
Proof.
  assert (Hempty : ∀ sched, processStacksConcurrently d sched [] = Some ([], None)).
  { intros sched. unfold processStacksConcurrently. cbv zeta.
    pose proof (pool_run_inv d (λ _, True) [] sched _
                  ltac:(apply Forall_forall; auto) (start_inv d _ [])) as (done & Hres & _ & Hperm & _).
    pose proof (pool_run_length d sched (start d [])) as Hlen.
    set (p := fold_left (worker_step d) sched (start d [])) in *.
    apply Permutation_nil_r in Hperm. apply app_eq_nil in Hperm as [Hd Hperm].
    apply fmap_nil_inv in Hd. subst done.
    assert (Hw : workers p = []).
    { apply length_zero_iff_nil. rewrite Hlen. cbn [start workers].
      rewrite length_replicate, numWorkers_min. cbn [length]. lia. }
    rewrite Hw, Hres. reflexivity. }
  split; [apply numWorkers_min|]. split.
  - rewrite numWorkers_min. lia.
  - split; [cbn [start workers]; apply length_replicate|].
    split; [reflexivity|]. split; [exact Hempty|].
    intros sched Hl. unfold DetectServerlessStacks. rewrite Hl. apply Hempty.
Qed.

(** ** The coordinator: per-stack failures *)

Lemma submseteq_filter_mono {A} (P : A → Prop) `{∀ a, Decision (P a)} (l1 l2 : list A) :
  l1 ⊆+ l2 → filter P l1 ⊆+ filter P l2.
Proof.
  induction 1 as [|x l1 l2 _ IH|x y l|x l1 l2 _ IH|l1 l2 l3 _ IH1 _ IH2].
  - constructor.
  - rewrite !filter_cons. destruct (decide (P x)); [constructor|]; exact IH.
  - rewrite !filter_cons. destruct (decide (P x)), (decide (P y)); try reflexivity.
    apply submseteq_swap.
  - rewrite filter_cons. destruct (decide (P x)); [constructor|]; exact IH.
  - etrans; eassumption.
Qed.

Lemma length_omap_le {A B} (f : A → option B) (l : list A) : (length (omap f l) ≤ length l)%nat.
Proof. induction l as [|a l IH]; cbn; [lia|]. destruct (f a); cbn; lia. Qed.

Lemma length_filter_split {A} (P : A → bool) (l : list A) :
  (length (filter (λ a, P a = false) l) + length (filter (λ a, P a = true) l) = length l)%nat.
Proof.
  induction l as [|a l IH]; [reflexivity|].
  rewrite !filter_cons. destruct (P a); repeat case_decide; try congruence; cbn [length]; lia.
Qed.

(** C4. A candidate without a name or whose resource fetch fails gives no
    result and no error.  Every run can be continued until the call
    returns, and what it returns is no error and an output made of results
    of candidates that were not skipped, each used at most once, so that
    the output is shorter than the listing by at least the number of
    skipped candidates; with a positive pool size every candidate that was
    not skipped is evaluated. *)
Theorem per_stack_failure_isolation (d : Detector) (sched : list Event)
    (summaries : list StackSummary.t) :
  ListActiveStacks (client d) = Ok summaries →
  (∀ now summary, skipped d summary = true → processStack d now summary = None) ∧
  (∃ more out, DetectServerlessStacks d (sched ++ more) = Some (out, None)) ∧
  (∀ out err,
     DetectServerlessStacks d sched = Some (out, err) →
     err = None ∧
     (∃ done : list (StackSummary.t * Time),
        out = omap (λ st, processStack d st.2 st.1) done ∧
        done.*1 ⊆+ filter (λ s, skipped d s = false) summaries ∧
        ((0 < maxWorkers d)%Z → done.*1 ≡ₚ filter (λ s, skipped d s = false) summaries)) ∧
     (length out + length (filter (λ s, skipped d s = true) summaries)
      ≤ length summaries)%nat).
Proof.
  intros Hl. unfold DetectServerlessStacks. rewrite Hl.
  split; [intros; apply processStack_skipped; assumption|]. split.
  { destruct (run_can_complete d 0%Z sched summaries) as (more & out & _ & Hrun).
    exists more, out. exact Hrun. }
  intros out err Hrun.
  destruct (processStacksConcurrently_outcome d (λ _, True) sched summaries out err)
    as (-> & done & _ & -> & Hsub & Hall); [apply Forall_forall; auto | exact Hrun |].
  split; [reflexivity|].
  set (keep := filter (λ st : StackSummary.t * Time, skipped d st.1 = false) done).
  assert (Hout : omap (λ st, processStack d st.2 st.1) done
                 = omap (λ st, processStack d st.2 st.1) keep).
  { subst keep. clear. induction done as [|[s now] done IH]; [reflexivity|].
    rewrite filter_cons. cbn [fst snd omap list_omap].
    destruct (decide (skipped d s = false)) as [Hk|Hk].
    - cbn [omap list_omap fst snd]. rewrite IH. reflexivity.
    - rewrite processStack_skipped by (destruct (skipped d s); congruence). exact IH. }
  assert (Hkeep : keep.*1 = filter (λ s, skipped d s = false) (done.*1)).
  { subst keep. clear. induction done as [|[s now] done IH]; [reflexivity|].
    rewrite fmap_cons, !filter_cons. cbn [fst].
    destruct (decide _); [rewrite fmap_cons|]; rewrite IH; reflexivity. }
  split.
  - exists keep. split; [exact Hout|]. rewrite Hkeep. split.
    + apply submseteq_filter_mono. exact Hsub.
    + intros Hpos. rewrite (Hall Hpos). reflexivity.
  - rewrite Hout.
    pose proof (length_omap_le (λ st, processStack d st.2 st.1) keep) as H1.
    assert (H2 : (length keep ≤ length (filter (λ s, skipped d s = false) summaries))%nat).
    { rewrite <- (length_fmap fst), Hkeep. apply submseteq_length.
      apply submseteq_filter_mono. exact Hsub. }
    pose proof (length_filter_split (skipped d) summaries). lia.
Qed.

Lemma per_stack_failure_isolation_witness :
  ListActiveStacks (client selective_detector)
    = Ok [candidate "good-stack"; candidate "failing-stack"; candidate "other-stack"] ∧
  DetectServerlessStacks selective_detector (sequential a_clock_reading 3 3)
    = Some ([reported "good-stack"; reported "other-stack"], None) ∧
  (length [reported "good-stack"; reported "other-stack"]
   + length (filter (λ s, skipped selective_detector s = true)
               [candidate "good-stack"; candidate "failing-stack"; candidate "other-stack"])
   ≤ 3)%nat.
Proof.
  split; [reflexivity|]. split; [vm_compute; reflexivity|].
  destruct (per_stack_failure_isolation selective_detector (sequential a_clock_reading 3 3)
              [candidate "good-stack"; candidate "failing-stack"; candidate "other-stack"]
              eq_refl) as (_ & _ & H).
  destruct (H [reported "good-stack"; reported "other-stack"] None) as (_ & _ & Hlen).
  - vm_compute; reflexivity.
  - exact Hlen.
Defined.

(** ** The coordinator: a stack without detail *)

(** C5. A named candidate whose resources match and whose detail fetch
    fails, or finds nothing, is reported: [processStack] returns a stack
    with an empty description, an empty (not nil) tag map and the reasons
    of the matching rules; when it is the only candidate every run can be
    continued until the call returns, and the output is that one stack. *)
Theorem detail_failure_still_reported (d : Detector) (now : Time)
    (summary : StackSummary.t) (name : string) (resources : list StackResource.t) :
  StackSummary.StackName summary = Some name →
  GetStackResources (client d) name = Ok resources →
  (GetStackDetails (client d) name = Ok None ∨ ∃ e, GetStackDetails (client d) name = Err e) →
  (Evaluate (ruleEngine d) resources None tt).1.1 = true →
  let reasons := (Evaluate (ruleEngine d) resources None tt).1.2 in
  ∃ x, processStack d now summary = Some x ∧
       x = convertToModel d now summary None reasons ∧
       models.StackName x = name ∧
       models.Region x = region d ∧
       models.Description x = "" ∧
       models.StackTags x = Some ∅ ∧
       models.Reasons x = reasons ∧ reasons ≠ [] ∧
       (∀ sched,
          (0 < maxWorkers d)%Z →
          ListActiveStacks (client d) = Ok [summary] →
          (∃ more out, DetectServerlessStacks d (sched ++ more) = Some (out, None)) ∧
          (∀ out err,
             DetectServerlessStacks d sched = Some (out, err) →
             err = None ∧ ∃ now', out = [convertToModel d now' summary None reasons])).
Proof.
  intros Hn Hr Hd Hm reasons.
  assert (Hdet : details_of d name = None).
  { unfold details_of. destruct Hd as [-> | [e ->]]; reflexivity. }
  assert (HE : Evaluate (ruleEngine d) resources (details_of d name) tt = ((true, reasons), tt)).
  { rewrite Hdet. subst reasons.
    destruct (Evaluate (ruleEngine d) resources None tt) as [[b rs] []]. cbn in *. congruence. }
  assert (Hp : ∀ now', processStack d now' summary
                       = Some (convertToModel d now' summary None reasons)).
  { intros now'. rewrite (processStack_match d now' summary name resources reasons Hn Hr HE), Hdet.
    reflexivity. }
  exists (convertToModel d now summary None reasons).
  destruct (convertToModel_fields d now summary None reasons)
    as (H1 & _ & H3 & H4 & H5 & H6 & _).
  split; [apply Hp|]. split; [reflexivity|].
  split; [rewrite H1, Hn; reflexivity|]. split; [exact H3|]. split; [exact H5|].
  split; [exact H6|]. split; [exact H4|]. split.
  - subst reasons. rewrite Evaluate_answers in Hm |- *.
    destruct (answers (rules (ruleEngine d)) resources None tt) as [l h]. cbn [fst snd] in *.
    apply filter_fst_nil. exact Hm.
  - intros sched Hpos Hl. unfold DetectServerlessStacks. rewrite Hl. split.
    { destruct (run_can_complete d 0%Z sched [summary]) as (more & out & _ & Hrun).
      exists more, out. exact Hrun. }
    intros out err Hrun.
    destruct (processStacksConcurrently_outcome d (λ _, True) sched [summary] out err)
      as (-> & done & _ & -> & _ & Hall); [apply Forall_forall; auto | exact Hrun |].
    split; [reflexivity|].
    specialize (Hall Hpos). apply Permutation_singleton_r in Hall.
    destruct done as [|[s now'] [|? ?]]; try discriminate.
    injection Hall as ->. exists now'. cbn [omap list_omap fst snd]. rewrite Hp. reflexivity.
Qed.

Lemma detail_failure_still_reported_witness :
  processStack no_details_detector a_clock_reading (candidate "test-stack")
    = Some (reported "test-stack") ∧
  ∃ x, processStack no_details_detector a_clock_reading (candidate "test-stack") = Some x ∧
       models.Description x = "" ∧ models.StackTags x = Some ∅ ∧
       models.Reasons x = ["Contains resource with logical ID 'ServerlessDeploymentBucket'"].
Proof.
  split; [vm_compute; reflexivity|].
  destruct (detail_failure_still_reported no_details_detector a_clock_reading
              (candidate "test-stack") "test-stack" [signature_bucket])
    as (x & Hx & _ & _ & _ & HD & HT & HR & _).
  - reflexivity.
  - reflexivity.
  - right. eexists. reflexivity.
  - reflexivity.
  - exists x. repeat split; assumption.
Defined.

(** ** The coordinator: timestamps *)

Lemma given_not_zero p t : given p = Some t → IsZero t = false.
Proof.
  unfold given. destruct p as [t'|]; [|discriminate].
  destruct (IsZero t') eqn:E; [discriminate | congruence].
Qed.

(** Every result the workers sent is traced to the step that made it. *)

Section Traced.
Variable d : Detector.

Lemma worker_step_results (p : Pool) (ev : Event) :
  results (worker_step d p ev) = results p ∨
  ∃ summary,
    workers p !! ev.1 = Some (Processing summary) ∧
    results (worker_step d p ev) = (results p ++ [processStack d ev.2 summary])%list.
Proof.
  destruct ev as [i now]. unfold worker_step. cbn [fst snd].
  destruct (workers p !! i) as [[|summary|]|] eqn:Hw.
  - destruct (jobs p); left; reflexivity.
  - right. exists summary. split; reflexivity.
  - left. reflexivity.
  - left. reflexivity.
Qed.

Lemma results_traced (sched : list Event) (p0 : Pool) (r : option models.Stack) :
  r ∈ results (fold_left (worker_step d) sched p0) →
  r ∈ results p0 ∨
  ∃ (i w : nat) (now : Time) summary,
    sched !! i = Some (w, now) ∧
    workers (fold_left (worker_step d) (take i sched) p0) !! w = Some (Processing summary) ∧
    r = processStack d now summary.
Proof.
  induction sched as [|ev sched IH] using rev_ind; [left; assumption|].
  rewrite fold_left_app. cbn [fold_left]. intros Hr.
  assert (Hold : r ∈ results (fold_left (worker_step d) sched p0) →
           r ∈ results p0 ∨
           ∃ (i w : nat) (now : Time) summary,
             (sched ++ [ev])%list !! i = Some (w, now) ∧
             workers (fold_left (worker_step d) (take i (sched ++ [ev])%list) p0) !! w
             = Some (Processing summary) ∧
             r = processStack d now summary).
  { intros H. destruct (IH H) as [H0 | (i & w & now & summary & Hi & Hw & ->)]; [left; exact H0|].
    right. exists i, w, now, summary.
    pose proof (lookup_lt_Some _ _ _ Hi) as Hlt.
    split; [rewrite lookup_app_l by exact Hlt; exact Hi|].
    split; [|reflexivity].
    rewrite (take_app_le sched [ev] i) by exact (Nat.lt_le_incl _ _ Hlt). exact Hw. }
  destruct (worker_step_results (fold_left (worker_step d) sched p0) ev)
    as [Heq | (summary & Hw & Heq)]; rewrite Heq in Hr.
  - apply Hold, Hr.
  - apply elem_of_app in Hr as [Hr | Hr]; [apply Hold, Hr|].
    apply list_elem_of_singleton in Hr as ->.
    right. exists (length sched), ev.1, ev.2, summary.
    split; [rewrite lookup_app_r, Nat.sub_diag by reflexivity; destruct ev; reflexivity|].
    split; [|reflexivity].
    rewrite (take_app_le sched [ev] (length sched)), take_ge by reflexivity. exact Hw.
Qed.

Lemma busy_elem (ws : list Worker) (w : nat) summary :
  ws !! w = Some (Processing summary) → summary ∈ busy ws.
Proof.
  intros Hw. unfold busy. apply list_elem_of_omap.
  exists (Processing summary). split; [|reflexivity].
  apply (list_elem_of_lookup_2 _ _ _ Hw).
Qed.

End Traced.

(** C6. As long as the clock does not read the zero instant, no reported
    stack has a zero timestamp.  Every reported stack was made by a step
    of the run in which a worker processed a candidate of the listing:
    [CreatedAt] is the creation time the source gives, and the clock
    reading of that step when it gives none; [UpdatedAt] is the update
    time the source gives, [CreatedAt] when it gives none.  The source is
    the detail record when there is one, the listing entry otherwise. *)
Theorem timestamps_never_zero (d : Detector) (sched : list Event)
    (summaries : list StackSummary.t) (out : list models.Stack) (err : option error) :
  Forall (λ ev : Event, IsZero ev.2 = false) sched →
  ListActiveStacks (client d) = Ok summaries →
  DetectServerlessStacks d sched = Some (out, err) →
  ∀ x, x ∈ out →
    IsZero (models.CreatedAt x) = false ∧
    IsZero (models.UpdatedAt x) = false ∧
    ∃ (i w : nat) (now : Time) summary name,
      sched !! i = Some (w, now) ∧
      workers (fold_left (worker_step d) (take i sched) (start d summaries)) !! w
      = Some (Processing summary) ∧
      processStack d now summary = Some x ∧
      summary ∈ summaries ∧ StackSummary.StackName summary = Some name ∧
      models.CreatedAt x
        = default now (given (source_CreationTime summary (details_of d name))) ∧
      models.UpdatedAt x
        = default (models.CreatedAt x)
                  (given (source_LastUpdatedTime summary (details_of d name))).
Proof.
  intros Hs Hl Hrun x Hx.
  unfold DetectServerlessStacks in Hrun. rewrite Hl in Hrun.
  unfold processStacksConcurrently in Hrun. cbv zeta in Hrun.
  destruct (forallb is_Returned _); [|discriminate].
  injection Hrun as <- _.
  rewrite collect_omap in Hx. apply list_elem_of_omap in Hx as (r & Hr & Hid).
  cbn [id] in Hid. subst r.
  apply results_traced in Hr as [Hr | (i & w & now & summary & Hi & Hw & Hp)];
    [inversion Hr|].
  symmetry in Hp.
  assert (Hnow : IsZero now = false) by exact (Forall_lookup_1 _ _ _ _ Hs Hi).
  assert (Hin : summary ∈ summaries).
  { destruct (pool_run_inv d (λ _, True) summaries (take i sched) _
                ltac:(apply Forall_forall; auto) (start_inv d (λ _, True) summaries))
      as (done & _ & _ & Hperm & _).
    rewrite <- Hperm. apply elem_of_app. right. apply elem_of_app. left.
    apply (busy_elem _ _ _ Hw). }
  pose proof Hp as Hp'.
  apply processStack_Some in Hp' as (name & resources & reasons & Hn & _ & _ & ->).
  destruct (convertToModel_fields d now summary (details_of d name) reasons)
    as (_ & _ & _ & _ & _ & _ & HC & HU).
  assert (HCz : IsZero (models.CreatedAt
                          (convertToModel d now summary (details_of d name) reasons)) = false).
  { rewrite HC. destruct (given _) as [t|] eqn:E; [apply (given_not_zero _ _ E) | exact Hnow]. }
  split; [exact HCz|]. split.
  - rewrite HU. destruct (given (source_LastUpdatedTime _ _)) as [t|] eqn:E;
      [apply (given_not_zero _ _ E) | exact HCz].
  - exists i, w, now, summary, name. auto 10.
Qed.

Lemma timestamps_never_zero_witness :
  Forall (λ ev : Event, IsZero ev.2 = false) (sequential a_clock_reading 3 3) ∧
  Forall (λ x, IsZero (models.CreatedAt x) = false ∧ IsZero (models.UpdatedAt x) = false)
         [reported "good-stack"; reported "other-stack"].
Proof.
  split; [vm_compute; repeat constructor|].
  apply Forall_forall. intros x Hx.
  destruct (timestamps_never_zero selective_detector (sequential a_clock_reading 3 3)
              [candidate "good-stack"; candidate "failing-stack"; candidate "other-stack"]
              [reported "good-stack"; reported "other-stack"] None) with (x := x)
    as (HC & HU & _).
  - vm_compute. repeat constructor.
  - reflexivity.
  - vm_compute; reflexivity.
  - exact Hx.
  - split; assumption.
Defined.

(** The fallbacks at work: a listing entry without timestamps and no
    detail record gets the clock reading twice; a creation time without an
    update time is mirrored. *)
Example convertToModel_timestamps :
  let d := NewDetector denied_client "us-east-1" in
  let x := convertToModel d 1700%Z (StackSummary.mk (Some "a") None None None) None [] in
  let y := convertToModel d 1700%Z (StackSummary.mk (Some "a") None (Some 5%Z) None) None [] in
  (models.CreatedAt x, models.UpdatedAt x) = (1700%Z, 1700%Z) ∧
  (models.CreatedAt y, models.UpdatedAt y) = (5%Z, 5%Z).
Proof. split; reflexivity. Qed.

(** ** The coordinator: the tag map *)

(** C10. The tag map of a converted stack is never the nil map.  Without a
    detail record it is empty.  With one, its keys are the keys of the tags
    that have both a key and a value, every binding is such a tag, and when
    no key occurs twice among them the bindings are exactly these tags.  So
    every stack the coordinator reports has a tag map, which is written as
    an object, not as [null]. *)
Theorem stack_tags_always_initialized (d : Detector) :
  (∀ now summary details reasons,
     ∃ m, models.StackTags (convertToModel d now summary details reasons) = Some m ∧
          match details with
          | None => m = ∅
          | Some det =>
              (∀ k v, m !! k = Some v → Tag.mk (Some k) (Some v) ∈ StackDetail.Tags det) ∧
              (∀ k, is_Some (m !! k) ↔ ∃ v, Tag.mk (Some k) (Some v) ∈ StackDetail.Tags det) ∧
              (NoDup (tag_entries (StackDetail.Tags det)).*1 →
               ∀ k v, m !! k = Some v ↔ Tag.mk (Some k) (Some v) ∈ StackDetail.Tags det)
          end) ∧
  (∀ sched out err,
     DetectServerlessStacks d sched = Some (out, err) →
     ∀ x, x ∈ out →
       models.StackTags x ≠ None ∧ marshal_tags_kind (models.StackTags x) = JSONObject).
Proof.
  split.
  - intros now summary details reasons.
    destruct (convertToModel_fields d now summary details reasons)
      as (_ & _ & _ & _ & _ & HT & _).
    eexists. split; [exact HT|].
    destruct details as [det|]; [|reflexivity].
    split; [|split].
    + intros k v Hm. apply elem_of_list_to_map_2 in Hm. rewrite elem_of_reverse in Hm.
      apply tag_entries_elem. exact Hm.
    + intros k. split.
      * intros [v Hm]. exists v. apply elem_of_list_to_map_2 in Hm. rewrite elem_of_reverse in Hm.
        apply tag_entries_elem. exact Hm.
      * intros [v Hin]. apply tag_entries_elem in Hin.
        apply not_eq_None_Some. intros Hnone.
        apply not_elem_of_list_to_map_2 in Hnone. apply Hnone.
        rewrite fmap_reverse, elem_of_reverse. apply list_elem_of_fmap.
        exists (k, v). split; [reflexivity | exact Hin].
    + intros Hnd k v. rewrite <- tag_entries_elem, <- (elem_of_reverse _ (tag_entries _)).
      symmetry. apply elem_of_list_to_map.
      rewrite fmap_reverse, reverse_Permutation. exact Hnd.
  - intros sched out err. unfold DetectServerlessStacks.
    destruct (ListActiveStacks (client d)) as [summaries|e] eqn:Hl.
    + intros Hrun x Hx.
      assert (Hd : DetectServerlessStacks d sched = Some (out, err))
        by (unfold DetectServerlessStacks; rewrite Hl; exact Hrun).
      destruct (detect_elem d (λ _, True) sched summaries out err x
                  ltac:(apply Forall_forall; auto) Hl Hd Hx) as (now & summary & _ & _ & Hp).
      apply processStack_Some in Hp as (name & resources & reasons & _ & _ & _ & ->).
      destruct (convertToModel_fields d now summary (details_of d name) reasons)
        as (_ & _ & _ & _ & _ & HT & _).
      rewrite HT. split; [discriminate | reflexivity].
    + intros [= <- <-] x Hx. inversion Hx.
Qed.

(** A later tag with the key of an earlier one replaces its value. *)
Example convertToModel_duplicate_key :
  let det := StackDetail.mk None None None None None
               [Tag.mk (Some "Owner") (Some "team-a"); Tag.mk None (Some "lost");
                Tag.mk (Some "Stage") None; Tag.mk (Some "Owner") (Some "team-b")] in
  models.StackTags (convertToModel (NewDetector denied_client "r") 1%Z
                      (candidate "s") (Some det) [])
  = Some {[ "Owner" := "team-b" ]}.
Proof. vm_compute. reflexivity. Qed.
(** ** The TSV rendering *)

Section TSVTheorems.
Variable Format_RFC3339 : Time → string.

Lemma append_cons x (a b : string) : String x a ++ b = String x (a ++ b).
Proof. reflexivity. Qed.

Lemma append_assoc (a b c : string) : (a ++ b) ++ c = a ++ (b ++ c).
Proof.
  induction a as [|x a IH]; [reflexivity|]. rewrite !append_cons, IH. reflexivity.
Qed.

Lemma ReplaceAll_app a b old new :
  ReplaceAll (a ++ b) old new = ReplaceAll a old new ++ ReplaceAll b old new.
Proof.
  induction a as [|c a IH]; [reflexivity|].
  rewrite append_cons. cbn [ReplaceAll]. rewrite IH.
  destruct (Ascii.eqb c old); [|reflexivity].
  symmetry. apply append_assoc.
Qed.

Lemma escapeValue_escaped v : escapeValue v = escaped v.
Proof.
  unfold escapeValue. cbv zeta. induction v as [|c v IH]; [reflexivity|].
  cbn [ReplaceAll escaped]. unfold escape_byte.
  destruct (Ascii.eqb c TAB) eqn:E1.
  { rewrite !ReplaceAll_app, IH. reflexivity. }
  cbn [ReplaceAll]. destruct (Ascii.eqb c LF) eqn:E2.
  { rewrite !ReplaceAll_app, IH. reflexivity. }
  cbn [ReplaceAll]. destruct (Ascii.eqb c CR) eqn:E3.
  { rewrite IH. reflexivity. }
  rewrite IH. reflexivity.
Qed.

Lemma clean_app a b : clean (a ++ b) = clean a && clean b.
Proof.
  induction a as [|c a IH]; [reflexivity|].
  rewrite append_cons. cbn [clean]. rewrite IH, !andb_assoc. reflexivity.
Qed.

Lemma clean_escaped v : clean (escaped v) = true.
Proof.
  induction v as [|c v IH]; [reflexivity|].
  cbn [escaped]. rewrite clean_app, IH, andb_true_r. unfold escape_byte.
  destruct (Ascii.eqb c TAB) eqn:E1; [reflexivity|].
  destruct (Ascii.eqb c LF) eqn:E2; [reflexivity|].
  destruct (Ascii.eqb c CR) eqn:E3; [reflexivity|].
  cbn [clean]. rewrite E1, E2, E3. reflexivity.
Qed.

Lemma fold_append {A} (f : A → string) (l : list A) (acc : list string) :
  fold_left (λ acc x, (acc ++ [f x])%list) l acc = (acc ++ (f <$> l))%list.
Proof.
  revert acc. induction l as [|x l IH]; intros acc; cbn [fold_left fmap list_fmap].
  - rewrite app_nil_r. reflexivity.
  - rewrite IH, <- app_assoc. reflexivity.
Qed.

Lemma formatReasons_spec reasons :
  formatReasons reasons = String.concat ";" (escaped <$> reasons).
Proof.
  unfold formatReasons. destruct reasons as [|r reasons]; [reflexivity|].
  cbn [length Nat.eqb]. cbv zeta.
  rewrite (fold_append escapeValue). cbn [app]. unfold Join.
  f_equal. apply list_fmap_ext. intros _ x _. apply escapeValue_escaped.
Qed.

Lemma entries_by_key_lookup (m : gmap string string) (keys : list string) :
  keys ⊆ (map_to_list m).*1 →
  Forall (λ kv, m !! kv.1 = Some kv.2) ((λ k, (k, default "" (m !! k))) <$> keys).
Proof.
  intros Hsub. apply Forall_fmap, Forall_forall. intros k Hk. cbn.
  apply Hsub, list_elem_of_fmap in Hk as ([k' v] & -> & Hin).
  apply elem_of_map_to_list in Hin. cbn. rewrite Hin. reflexivity.
Qed.

Lemma StronglySorted_strict (l : list string) :
  StronglySorted String.le l → NoDup l →
  StronglySorted (λ a b, String.le a b ∧ a ≠ b) l.
Proof.
  induction 1 as [|a l Hs IH Hall]; intros Hnd; constructor.
  - apply IH. apply NoDup_cons in Hnd as [_ Hnd]. exact Hnd.
  - apply NoDup_cons in Hnd as [Hni _].
    rewrite Forall_forall in Hall |- *. intros b Hb. split; [apply Hall, Hb|].
    intros ->. apply Hni, Hb.
Qed.

Lemma entries_by_key_sorted tags : sorted_entries tags (entries_by_key tags).
Proof.
  unfold sorted_entries, entries_by_key. cbv zeta.
  set (m := default ∅ tags).
  set (keys := merge_sort String.le (map_to_list m).*1).
  assert (Hperm : keys ≡ₚ (map_to_list m).*1) by apply merge_sort_Permutation.
  assert (Hfst : ((λ k, (k, default "" (m !! k))) <$> keys).*1 = keys).
  { rewrite <- list_fmap_compose. clear. induction keys as [|k l IH]; cbn; [reflexivity|].
    rewrite IH. reflexivity. }
  split.
  - rewrite Hperm, <- list_fmap_compose.
    assert (H : ∀ l : list (string * string),
               l ⊆ map_to_list m →
               ((λ k, (k, default "" (m !! k))) ∘ fst) <$> l = l).
    { induction l as [|[k v] l IH]; intros Hl; [reflexivity|].
      cbn. rewrite IH by (intros x Hx; apply Hl; right; exact Hx).
      assert (Hkv : m !! k = Some v) by (apply elem_of_map_to_list, Hl; left).
      rewrite Hkv. reflexivity. }
    rewrite H; [reflexivity | intros x Hx; exact Hx].
  - rewrite Hfst. apply StronglySorted_strict.
    + apply StronglySorted_merge_sort; apply _.
    + rewrite Hperm. apply NoDup_fst_map_to_list.
Qed.

Lemma formatTags_spec tags : formatTags tags = tag_cell (entries_by_key tags).
Proof.
  unfold formatTags, entries_by_key, tag_cell. cbv zeta.
  destruct tags as [m|]; [|reflexivity]. cbn [default from_option id].
  destruct (size m =? 0)%nat eqn:Hsz.
  - apply Nat.eqb_eq, map_size_empty_iff in Hsz. subst m.
    rewrite map_to_list_empty. reflexivity.
  - unfold sort_Strings.
    rewrite (fold_append (λ key, escapeValue key ++ "=" ++ escapeValue (default "" (m !! key)))).
    cbn [app]. unfold Join. f_equal.
    rewrite <- list_fmap_compose. apply list_fmap_ext. intros _ k _. cbn.
    rewrite !escapeValue_escaped. reflexivity.
Qed.

Lemma row_spec stack :
  Join (row Format_RFC3339 stack) (String TAB "")
  = spec_row Format_RFC3339 stack (entries_by_key (models.StackTags stack)).
Proof.
  unfold Join, row, spec_row.
  rewrite !escapeValue_escaped, formatTags_spec, formatReasons_spec. reflexivity.
Qed.

Lemma HasSuffix_snoc a c : HasSuffix (a ++ String c "") (String c "") = true.
Proof.
  unfold HasSuffix. cbn [String.length].
  induction a as [|x a IH].
  - change ("" ++ String c "") with (String c "").
    cbn [String.length Nat.sub Nat.leb String.substring andb]. apply String.eqb_refl.
  - rewrite append_cons. cbn [String.length].
    apply andb_true_iff in IH as [IH1 IH2].
    apply andb_true_iff. split; [reflexivity|].
    destruct (String.length (a ++ String c "")) as [|n] eqn:Hn; [discriminate IH1|].
    cbn [Nat.sub] in *. rewrite Nat.sub_0_r in *.
    destruct n as [|n]; cbn [String.substring] in *; exact IH2.
Qed.

Lemma substring_snoc a c :
  String.substring 0 (String.length (a ++ String c "") - 1) (a ++ String c "") = a.
Proof.
  induction a as [|x a IH]; [reflexivity|].
  rewrite append_cons. cbn [String.length Nat.sub]. rewrite Nat.sub_0_r.
  destruct (String.length (a ++ String c "")) as [|n] eqn:Hn.
  - destruct a; discriminate Hn.
  - cbn [String.substring]. f_equal.
    cbn [Nat.sub] in IH. rewrite Nat.sub_0_r in IH. exact IH.
Qed.

Lemma builder_lines {A} (line : A → string) (l : list A) (first : string) :
  fold_left (λ result x, (result ++ line x) ++ String LF "") l (first ++ String LF "")
  = String.concat (String LF "") (first :: (line <$> l)) ++ String LF "".
Proof.
  revert first. induction l as [|x l IH]; intros first; [reflexivity|].
  cbn [fold_left fmap list_fmap].
  rewrite (append_assoc first), IH. cbn [String.concat].
  destruct (line <$> l); rewrite !append_assoc; reflexivity.
Qed.

(** C9. The TSV text is the header line followed by one line per result
    in list order, the lines joined by a line feed; a line is its eight
    cells joined by a tab; name, id, region, description, tag keys, tag
    values and reasons are escaped byte by byte; the tag cell lists
    [key=value] by increasing key and the tag and reason cells are
    joined by [;]. *)
Theorem TSV_rendering (stacks : list models.Stack) :
  Format Format_RFC3339 stacks
  = (String.concat (String LF "")
       (String.concat (String TAB "")
          ["StackName"; "StackID"; "Region"; "Description";
           "CreatedAt"; "UpdatedAt"; "Tags"; "Reasons"]
        :: ((λ stack, spec_row Format_RFC3339 stack (entries_by_key (models.StackTags stack)))
              <$> stacks)),
     None) ∧
  Forall (λ stack, sorted_entries (models.StackTags stack)
                     (entries_by_key (models.StackTags stack))) stacks ∧
  (∀ v, escapeValue v = escaped v ∧ clean (escaped v) = true).
Proof.
  split; [|split].
  - unfold Format. cbv zeta. change ("" ++ ?x) with x.
    rewrite (builder_lines (λ stack, Join (row Format_RFC3339 stack) (String TAB ""))).
    rewrite HasSuffix_snoc, substring_snoc. f_equal. unfold Join, header. f_equal. f_equal.
    apply list_fmap_ext. intros _ stack _. apply row_spec.
  - apply Forall_forall. intros stack _. apply entries_by_key_sorted.
  - intros v. split; [apply escapeValue_escaped | apply clean_escaped].
Qed.

End TSVTheorems.

(** The test of the escapes (TestTSVFormatter_EscapeTabsAndNewlines) and a
    stack with two tags. *)
Example TSV_rendering_example :
  let stack :=
    {| models.StackName := "test-stack"; models.StackID := "id"; models.Region := "us-east-1";
       models.CreatedAt := 0%Z; models.UpdatedAt := a_clock_reading;
       models.Description :=
         "Description with" ++ String TAB "tabs and" ++ String LF "newlines";
       models.StackTags := Some {[ "Service" := "serverless"; "Environment" := "test" ]};
       models.Reasons := ["Test reason"; "Other"] |} in
  (Format toy_RFC3339 [stack]).1
  = "StackName" ++ String TAB "StackID" ++ String TAB "Region" ++ String TAB "Description"
    ++ String TAB "CreatedAt" ++ String TAB "UpdatedAt" ++ String TAB "Tags"
    ++ String TAB "Reasons" ++ String LF "test-stack" ++ String TAB "id"
    ++ String TAB "us-east-1" ++ String TAB "Description with\ttabs and\nnewlines"
    ++ String TAB "" ++ String TAB "2000-01-01T00:00:00Z"
    ++ String TAB "Environment=test;Service=serverless" ++ String TAB "Test reason;Other".
Proof. vm_compute. reflexivity. Qed.
(** * Further properties *)

(** ** The rule engine: registration *)

Section Registration.
Context {St : Type}.
Implicit Types (re : RuleEngine St) (rule : DetectionRule St) (h : St).

(** X1. Registering one more rule extends the verdict: the engine first
    gives the verdict it gave before, then the new rule is asked on the
    store the others left; its reason, if it matches, comes last.  A match
    stays a match and the reasons found before stay, in their order. *)
Theorem Evaluate_AddRule re rule resources details h :
  let '((isMatch, reasons), h1) := Evaluate re resources details h in
  let '((matches, reason), h2) := Check rule resources details h1 in
  Evaluate (AddRule re rule) resources details h
  = ((isMatch || matches, (reasons ++ if matches then [reason] else [])%list), h2).
Proof.
  unfold Evaluate, AddRule. cbn [rules]. rewrite fold_left_app.
  destruct (fold_left _ (rules re) _) as [[isMatch reasons] h1].
  cbn [fold_left]. unfold Evaluate_step.
  destruct (Check rule resources details h1) as [[matches reason] h2].
  destruct matches.
  - rewrite orb_true_r. reflexivity.
  - rewrite orb_false_r, app_nil_r. reflexivity.
Qed.

Lemma engine_with_rules (added : list (DetectionRule St)) :
  rules (engine_with added) = ServerlessDeploymentBucketRule :: added.
Proof.
  unfold engine_with.
  assert (H : ∀ re, rules (fold_left AddRule added re) = (rules re ++ added)%list).
  { induction added as [|rule rest IH]; intros re; cbn [fold_left].
    - rewrite app_nil_r. reflexivity.
    - rewrite IH. unfold AddRule. cbn [rules]. rewrite <- app_assoc. reflexivity. }
  rewrite H. reflexivity.
Qed.

(** X2. Whatever rules are registered after the built-in one, with or
    without state, a stack that holds the signature bucket is a match and
    the reason of the built-in rule is the first reason. *)
Theorem builtin_rule_not_suppressed (added : list (DetectionRule St)) resources details h :
  hasServerlessDeploymentBucket resources = true →
  ∃ more h',
    Evaluate (engine_with added) resources details h
    = ((true, "Contains resource with logical ID 'ServerlessDeploymentBucket'" :: more), h').
Proof.
  intros Hb. rewrite Evaluate_answers, engine_with_rules. cbn [answers Check ServerlessDeploymentBucketRule].
  unfold stateless, ServerlessDeploymentBucketRule_Check. rewrite Hb.
  destruct (answers added resources details h) as [l h'].
  exists ((List.filter fst l).*2), h'. reflexivity.
Qed.

End Registration.

Lemma builtin_rule_not_suppressed_witness :
  ∃ more h',
    Evaluate (engine_with [flipping_rule]) my_api_dev_resources None false
    = ((true, "Contains resource with logical ID 'ServerlessDeploymentBucket'" :: more), h').
Proof. apply (builtin_rule_not_suppressed [flipping_rule]). reflexivity. Defined.
(** ** The coordinator: what is reported *)

Section Reported.
Variable d : Detector.

Lemma processStack_detects now summary :
  processStack d now summary
  = if detects d summary
    then Some (convertToModel d now summary
                 (details_of d (name_of summary))
                 (match GetStackResources (client d) (name_of summary) with
                  | Ok resources =>
                      (Evaluate (ruleEngine d) resources
                         (details_of d (name_of summary)) tt).1.2
                  | Err _ => []
                  end))
    else None.
Proof.
  unfold processStack, detects, name_of.
  destruct (StackSummary.StackName summary) as [name|]; [|reflexivity].
  cbn [default from_option id].
  destruct (GetStackResources (client d) name) as [resources|]; [|reflexivity].
  fold (details_of d name).
  destruct (Evaluate (ruleEngine d) resources (details_of d name) tt) as [[b reasons] []].
  reflexivity.
Qed.

Lemma detects_name summary : detects d summary = true → StackSummary.StackName summary = Some (name_of summary).
Proof.
  unfold detects, name_of. destruct (StackSummary.StackName summary); [reflexivity | discriminate].
Qed.

(** X3. With the rule set of a new detector, a candidate is reported
    exactly when it has a name, its resources can be fetched and one of
    them is the signature bucket; the detail record plays no part in the
    decision.  The reported stack carries the candidate's name, the
    detector's region and the one reason of the built-in rule. *)
Theorem processStack_default_engine (now : Time) (summary : StackSummary.t) :
  ruleEngine d = NewRuleEngine →
  (∀ x, processStack d now summary = Some x →
        models.StackName x = name_of summary ∧
        models.Region x = region d ∧
        models.Reasons x = ["Contains resource with logical ID 'ServerlessDeploymentBucket'"]) ∧
  (is_Some (processStack d now summary) ↔
   ∃ name resources r,
     StackSummary.StackName summary = Some name ∧
     GetStackResources (client d) name = Ok resources ∧
     r ∈ resources ∧ is_signature_bucket r).
Proof.
  intros He.
  assert (HE : ∀ resources details,
             Evaluate (ruleEngine d) resources details tt
             = (if hasServerlessDeploymentBucket resources
                then (true, ["Contains resource with logical ID 'ServerlessDeploymentBucket'"])
                else (false, []), tt)).
  { intros resources details. rewrite He. unfold Evaluate, NewRuleEngine. cbn [rules fold_left].
    unfold Evaluate_step. cbn [Check ServerlessDeploymentBucketRule].
    unfold stateless, ServerlessDeploymentBucketRule_Check.
    destruct (hasServerlessDeploymentBucket resources); reflexivity. }
  split.
  - intros x Hx. apply processStack_Some in Hx as (name & resources & reasons & Hn & Hr & Hev & ->).
    rewrite HE in Hev.
    destruct (convertToModel_fields d now summary (details_of d name) reasons)
      as (H1 & _ & H3 & H4 & _).
    unfold name_of. rewrite H1, H3, H4.
    destruct (hasServerlessDeploymentBucket resources); [|discriminate].
    injection Hev as <-. auto.
  - rewrite processStack_detects. unfold detects.
    destruct (StackSummary.StackName summary) as [name|] eqn:Hn.
    + destruct (GetStackResources (client d) name) as [resources|e] eqn:Hres.
      * rewrite HE.
        destruct (hasServerlessDeploymentBucket resources) eqn:Hb; cbn [fst]; split.
        -- intros _. apply hasServerlessDeploymentBucket_true in Hb as (r & Hr & Hs).
           exists name, resources, r.
           split; [reflexivity|]. split; [exact Hres|]. split; assumption.
        -- intros _. eexists. reflexivity.
        -- intros [x Hx]. discriminate.
        -- intros (n & rs & r & [= <-] & Hrs & Hr & Hs).
           rewrite Hres in Hrs. injection Hrs as <-.
           assert (hasServerlessDeploymentBucket resources = true)
             by (apply hasServerlessDeploymentBucket_true; eauto).
           congruence.
      * split; [intros [x Hx]; discriminate|].
        intros (n & rs & r & [= <-] & Hrs & _). rewrite Hres in Hrs. discriminate.
    + split; [intros [x Hx]; discriminate | intros (n & rs & r & Hn' & _); discriminate].
Qed.

Lemma omap_filter_detects (done : list (StackSummary.t * Time)) :
  models.StackName <$> omap (λ st, processStack d st.2 st.1) done
  = name_of <$> filter (λ s, detects d s = true) (done.*1).
Proof.
  induction done as [|[s now] done IH]; [reflexivity|].
  rewrite fmap_cons, filter_cons. cbn [fst snd omap list_omap].
  rewrite processStack_detects.
  destruct (detects d s) eqn:Hd.
  - rewrite decide_True by reflexivity. rewrite !fmap_cons, IH. f_equal.
    match goal with |- models.StackName (convertToModel d now s ?det ?rs) = _ =>
      destruct (convertToModel_fields d now s det rs) as (H1 & _) end.
    rewrite H1. reflexivity.
  - rewrite decide_False by discriminate. exact IH.
Qed.

(** X4. No drop and no duplicate: with a positive pool size, under every
    schedule that lets the call return, the names of the reported stacks
    are the names of the candidates that match, each as often as it is
    listed, and there are as many results as matching candidates. *)
Theorem detect_reports_each_match_once (sched : list Event)
    (summaries : list StackSummary.t) (out : list models.Stack) (err : option error) :
  (0 < maxWorkers d)%Z →
  ListActiveStacks (client d) = Ok summaries →
  DetectServerlessStacks d sched = Some (out, err) →
  models.StackName <$> out ≡ₚ name_of <$> filter (λ s, detects d s = true) summaries ∧
  length out = length (filter (λ s, detects d s = true) summaries).
Proof.
  intros Hpos Hl. unfold DetectServerlessStacks. rewrite Hl. intros Hrun.
  destruct (processStacksConcurrently_outcome d (λ _, True) sched summaries out err)
    as (_ & done & _ & -> & _ & Hall); [apply Forall_forall; auto | exact Hrun |].
  specialize (Hall Hpos).
  assert (Hnames : models.StackName <$> omap (λ st, processStack d st.2 st.1) done
                   ≡ₚ name_of <$> filter (λ s, detects d s = true) summaries).
  { rewrite omap_filter_detects, Hall. reflexivity. }
  split; [exact Hnames|].
  apply Permutation_length in Hnames. rewrite !length_fmap in Hnames. exact Hnames.
Qed.

(** *** One worker *)

Lemma single_worker_lookup (ws : list Worker) (i : nat) w :
  (length ws ≤ 1)%nat → ws !! i = Some w → ws = [w] ∧ i = 0%nat.
Proof.
  intros Hlen Hw. destruct ws as [|w0 [|w1 ws]]; [discriminate Hw| |cbn in Hlen; lia].
  destruct i as [|i]; [injection Hw as ->; auto | discriminate Hw].
Qed.

Lemma single_worker_step summaries p ev :
  (length (workers p) ≤ 1)%nat →
  ordered_inv d summaries p → ordered_inv d summaries (worker_step d p ev).
Proof.
  destruct ev as [i now]. intros Hlen (done & Hres & Heq).
  unfold worker_step.
  destruct (workers p !! i) as [[|summary|]|] eqn:Hw;
    [| |exists done; auto|exists done; auto];
    destruct (single_worker_lookup _ _ _ Hlen Hw) as [Hws ->]; rewrite Hws in Heq |- *.
  - destruct (jobs p) as [|summary rest] eqn:Hj; exists done; cbn [jobs workers results];
      (split; [exact Hres|]); cbn in Heq |- *; exact Heq.
  - exists (done ++ [(summary, now)])%list. cbn [jobs workers results]. split.
    + unfold outcomes in *. rewrite fmap_app, Hres. reflexivity.
    + rewrite fmap_app. cbn in Heq |- *. rewrite <- app_assoc. exact Heq.
Qed.

(** X5. With a pool of one worker the output keeps the order of the
    listing: under every schedule that lets the call return, the output is
    what [processStack] gives for the candidates, taken in list order. *)
Theorem single_worker_keeps_order (sched : list Event)
    (summaries : list StackSummary.t) (out : list models.Stack) (err : option error) :
  maxWorkers d = 1%Z →
  ListActiveStacks (client d) = Ok summaries →
  DetectServerlessStacks d sched = Some (out, err) →
  ∃ done : list (StackSummary.t * Time),
    done.*1 = summaries ∧ out = omap (λ st, processStack d st.2 st.1) done.
Proof.
  intros Hone Hl. unfold DetectServerlessStacks. rewrite Hl.
  unfold processStacksConcurrently. cbv zeta.
  assert (Hstart : (length (workers (start d summaries)) ≤ 1)%nat).
  { cbn [start workers]. rewrite length_replicate, numWorkers_min, Hone. lia. }
  assert (Hinv : ∀ p, (length (workers p) ≤ 1)%nat → ordered_inv d summaries p →
                      ordered_inv d summaries (fold_left (worker_step d) sched p)).
  { induction sched as [|ev rest IH]; intros p Hlen Hp; cbn [fold_left]; [exact Hp|].
    apply IH; [rewrite worker_step_length; exact Hlen | apply single_worker_step; assumption]. }
  assert (H0 : ordered_inv d summaries (start d summaries)).
  { exists []. split; [reflexivity|]. cbn [start workers jobs fmap list_fmap app].
    assert (Hb : ∀ n, busy (replicate n Ranging) = []) by (induction n; auto).
    rewrite Hb. reflexivity. }
  destruct (Hinv _ Hstart H0) as (done & Hres & Heq).
  pose proof (pool_run_length d sched (start d summaries)) as Hlen.
  pose proof (pool_run_inv d (λ _, True) summaries sched _
                ltac:(apply Forall_forall; auto) (start_inv d _ summaries))
    as (_ & _ & _ & _ & Hret).
  set (p := fold_left (worker_step d) sched (start d summaries)) in *.
  destruct (forallb is_Returned (workers p)) eqn:Hall; [|discriminate].
  intros [= <- <-].
  destruct (all_Returned _ Hall) as [Hbusy Hin].
  rewrite Hbusy in Heq. cbn [app] in Heq.
  assert (Hjobs : jobs p = []).
  { destruct summaries as [|s0 rest].
    - apply app_eq_nil in Heq as [_ Heq]. exact Heq.
    - apply Hret, Hin. intros Hnil. rewrite Hnil in Hlen. cbn [start workers length] in Hlen.
      rewrite length_replicate, numWorkers_min, Hone in Hlen. cbn [length] in Hlen. lia. }
  rewrite Hjobs, app_nil_r in Heq.
  exists done. split; [exact Heq|]. rewrite collect_omap, Hres. apply omap_outcomes.
Qed.

End Reported.

Lemma processStack_default_engine_witness :
  ruleEngine selective_detector = NewRuleEngine ∧
  (is_Some (processStack selective_detector a_clock_reading (candidate "failing-stack")) ↔
   ∃ name resources r,
     StackSummary.StackName (candidate "failing-stack") = Some name ∧
     GetStackResources (client selective_detector) name = Ok resources ∧
     r ∈ resources ∧ is_signature_bucket r).
Proof.
  split; [reflexivity|].
  apply (processStack_default_engine selective_detector a_clock_reading
           (candidate "failing-stack") eq_refl).
Defined.

Lemma detect_reports_each_match_once_witness :
  DetectServerlessStacks selective_detector (sequential a_clock_reading 3 3)
    = Some ([reported "good-stack"; reported "other-stack"], None) ∧
  models.StackName <$> [reported "good-stack"; reported "other-stack"]
    ≡ₚ name_of <$> filter (λ s, detects selective_detector s = true)
                     [candidate "good-stack"; candidate "failing-stack"; candidate "other-stack"].
Proof.
  split; [vm_compute; reflexivity|].
  apply (detect_reports_each_match_once selective_detector (sequential a_clock_reading 3 3)
           [candidate "good-stack"; candidate "failing-stack"; candidate "other-stack"]
           [reported "good-stack"; reported "other-stack"] None).
  - reflexivity.
  - reflexivity.
  - vm_compute; reflexivity.
Defined.

Lemma single_worker_keeps_order_witness :
  DetectServerlessStacks single_worker_detector (sequential a_clock_reading 3 1)
    = Some ([reported "good-stack"; reported "other-stack"], None) ∧
  ∃ done : list (StackSummary.t * Time),
    done.*1 = [candidate "good-stack"; candidate "failing-stack"; candidate "other-stack"] ∧
    [reported "good-stack"; reported "other-stack"]
    = omap (λ st, processStack single_worker_detector st.2 st.1) done.
Proof.
  split; [vm_compute; reflexivity|].
  apply (single_worker_keeps_order single_worker_detector (sequential a_clock_reading 3 1)
           [candidate "good-stack"; candidate "failing-stack"; candidate "other-stack"]
           [reported "good-stack"; reported "other-stack"] None).
  - reflexivity.
  - reflexivity.
  - vm_compute; reflexivity.
Defined.
(** ** The TSV formatter: the escape *)

Lemma ReplaceAll_absent s old new : count_byte old s = 0%nat → ReplaceAll s old new = s.
Proof.
  induction s as [|c s IH]; [reflexivity|].
  cbn [count_byte ReplaceAll]. destruct (Ascii.eqb c old); [discriminate|].
  cbn [Nat.add]. intros H. rewrite IH by exact H. reflexivity.
Qed.

Lemma clean_count s :
  clean s = true ↔
  count_byte TAB s = 0%nat ∧ count_byte LF s = 0%nat ∧ count_byte CR s = 0%nat.
Proof.
  induction s as [|c s IH]; [cbn; tauto|].
  cbn [clean count_byte].
  destruct (Ascii.eqb c TAB), (Ascii.eqb c LF), (Ascii.eqb c CR); cbn [negb andb Nat.add];
    try (split; [discriminate | intros (? & ? & ?); discriminate]).
  exact IH.
Qed.

(** X6. A text without tab, line feed and carriage return is left as it
    is by [escapeValue]; what [escapeValue] returns is such a text, so
    escaping twice is escaping once. *)
Theorem escapeValue_idempotent (v : string) :
  (clean v = true → escapeValue v = v) ∧
  clean (escapeValue v) = true ∧
  escapeValue (escapeValue v) = escapeValue v.
Proof.
  assert (H : ∀ s, clean s = true → escapeValue s = s).
  { intros s Hs. apply clean_count in Hs as (H1 & H2 & H3).
    unfold escapeValue. cbv zeta.
    rewrite (ReplaceAll_absent s TAB) by exact H1.
    rewrite (ReplaceAll_absent s LF) by exact H2.
    rewrite (ReplaceAll_absent s CR) by exact H3. reflexivity. }
  assert (Hc : clean (escapeValue v) = true)
    by (rewrite escapeValue_escaped; apply clean_escaped).
  split; [apply H|]. split; [exact Hc | apply H, Hc].
Qed.

Lemma escaped_app (a b : string) : escaped (a ++ b) = escaped a ++ escaped b.
Proof.
  induction a as [|c a IH]; [reflexivity|].
  rewrite append_cons. cbn [escaped]. rewrite IH, append_assoc. reflexivity.
Qed.

(** X7. The backslash is not escaped, so the escape cannot be undone: a
    tab and the two bytes backslash, [t] give the same text, in any
    context (and so for line feed and [n], carriage return and [r]). *)
Theorem escapeValue_collides (a b : string) :
  escapeValue (a ++ String TAB b) = escapeValue (a ++ String BACKSLASH (String "t" b)) ∧
  escapeValue (a ++ String LF b) = escapeValue (a ++ String BACKSLASH (String "n" b)) ∧
  escapeValue (a ++ String CR b) = escapeValue (a ++ String BACKSLASH (String "r" b)) ∧
  a ++ String TAB b ≠ a ++ String BACKSLASH (String "t" b).
Proof.
  rewrite !escapeValue_escaped, !escaped_app. repeat split.
  intros H. apply (inj (String.append a)) in H. discriminate H.
Qed.
(** ** The TSV formatter: the shape of the text *)

Lemma count_byte_app c (a b : string) :
  count_byte c (a ++ b) = (count_byte c a + count_byte c b)%nat.
Proof.
  induction a as [|x a IH]; [reflexivity|].
  rewrite append_cons. cbn [count_byte]. rewrite IH. lia.
Qed.

Lemma count_byte_concat c x (l : list string) :
  Forall (λ s, count_byte c s = 0%nat) l →
  count_byte c (String.concat (String x "") l)
  = if Ascii.eqb x c then (length l - 1)%nat else 0%nat.
Proof.
  induction 1 as [|s l Hs Hl IH]; [cbn; destruct (Ascii.eqb x c); reflexivity|].
  cbn [String.concat]. destruct l as [|s' l].
  - rewrite Hs. destruct (Ascii.eqb x c); reflexivity.
  - rewrite !count_byte_app, Hs, IH. cbn [count_byte length].
    destruct (Ascii.eqb x c); cbn; lia.
Qed.

Lemma clean_concat (sep : string) (l : list string) :
  clean sep = true → Forall (λ s, clean s = true) l → clean (String.concat sep l) = true.
Proof.
  intros Hsep. induction 1 as [|s l Hs Hl IH]; [reflexivity|].
  cbn [String.concat]. destruct l as [|s' l]; [exact Hs|].
  rewrite !clean_app, Hs, Hsep, IH. reflexivity.
Qed.

Section TSVShape.
Variable Format_RFC3339 : Time → string.
Hypothesis RFC3339_clean : ∀ t, clean (Format_RFC3339 t) = true.

Lemma row_cells_clean stack : Forall (λ s, clean s = true) (row Format_RFC3339 stack).
Proof.
  unfold row. repeat constructor.
  - rewrite escapeValue_escaped. apply clean_escaped.
  - rewrite escapeValue_escaped. apply clean_escaped.
  - rewrite escapeValue_escaped. apply clean_escaped.
  - rewrite escapeValue_escaped. apply clean_escaped.
  - unfold formatTime. destruct (IsZero _); [reflexivity | apply RFC3339_clean].
  - unfold formatTime. destruct (IsZero _); [reflexivity | apply RFC3339_clean].
  - rewrite formatTags_spec. unfold tag_cell. apply clean_concat; [reflexivity|].
    apply Forall_fmap, Forall_forall. intros [k v] _. cbn.
    rewrite !clean_app, !clean_escaped. reflexivity.
  - rewrite formatReasons_spec. apply clean_concat; [reflexivity|].
    apply Forall_fmap, Forall_forall. intros r _. apply clean_escaped.
Qed.

Lemma Format_lines (stacks : list models.Stack) :
  Format Format_RFC3339 stacks
  = (String.concat (String LF "")
       (Join header (String TAB "")
        :: ((λ stack, Join (row Format_RFC3339 stack) (String TAB "")) <$> stacks)),
     None).
Proof.
  unfold Format. cbv zeta. change ("" ++ ?x) with x.
  rewrite (builder_lines (λ stack, Join (row Format_RFC3339 stack) (String TAB ""))).
  rewrite HasSuffix_snoc, substring_snoc. reflexivity.
Qed.

(** X8. When the timestamps are printed without tab, line feed and
    carriage return (as RFC 3339 prints them), the TSV text can be split
    back: it is its lines joined by line feeds, one line more than there
    are stacks, and every line holds exactly seven tabs, so eight cells,
    and no line feed or carriage return. *)
Theorem TSV_shape (stacks : list models.Stack) :
  ∃ lines : list string,
    Format Format_RFC3339 stacks = (String.concat (String LF "") lines, None) ∧
    length lines = S (length stacks) ∧
    Forall (λ line, count_byte TAB line = 7%nat ∧ count_byte LF line = 0%nat
                    ∧ count_byte CR line = 0%nat) lines ∧
    count_byte LF (Format Format_RFC3339 stacks).1 = length stacks.
Proof.
  assert (Hline : ∀ cells : list string,
            length cells = 8%nat → Forall (λ s, clean s = true) cells →
            count_byte TAB (Join cells (String TAB "")) = 7%nat
            ∧ count_byte LF (Join cells (String TAB "")) = 0%nat
            ∧ count_byte CR (Join cells (String TAB "")) = 0%nat).
  { intros cells Hlen Hcl. unfold Join.
    assert (H : Forall (λ s, count_byte TAB s = 0%nat) cells
                ∧ Forall (λ s, count_byte LF s = 0%nat) cells
                ∧ Forall (λ s, count_byte CR s = 0%nat) cells).
    { repeat split; eapply Forall_impl; try exact Hcl;
        intros s Hs; apply clean_count in Hs; tauto. }
    destruct H as (H1 & H2 & H3).
    rewrite (count_byte_concat TAB TAB cells H1), (count_byte_concat LF TAB cells H2),
      (count_byte_concat CR TAB cells H3), Hlen. repeat split. }
  set (lines := Join header (String TAB "")
                :: ((λ stack, Join (row Format_RFC3339 stack) (String TAB "")) <$> stacks)).
  assert (Hlines : Forall (λ line, count_byte TAB line = 7%nat ∧ count_byte LF line = 0%nat
                                   ∧ count_byte CR line = 0%nat) lines).
  { subst lines. constructor.
    - apply Hline; [reflexivity|]. unfold header. repeat constructor.
    - apply Forall_fmap, Forall_forall. intros stack _.
      apply (Hline (row Format_RFC3339 stack)); [reflexivity | apply row_cells_clean]. }
  exists lines. rewrite Format_lines. fold lines.
  split; [reflexivity|]. split; [subst lines; cbn [length]; rewrite length_fmap; reflexivity|].
  split; [exact Hlines|]. cbn [fst].
  rewrite (count_byte_concat LF LF lines).
  - subst lines. cbn [length]. rewrite length_fmap. cbn. lia.
  - eapply Forall_impl; [exact Hlines|]. cbn. tauto.
Qed.

End TSVShape.

Lemma TSV_shape_witness :
  (∀ t, clean (toy_RFC3339 t) = true) ∧
  ∃ lines : list string,
    Format toy_RFC3339 [reported "good-stack"; reported "other-stack"]
    = (String.concat (String LF "") lines, None) ∧
    length lines = 3%nat ∧
    Forall (λ line, count_byte TAB line = 7%nat ∧ count_byte LF line = 0%nat
                    ∧ count_byte CR line = 0%nat) lines ∧
    count_byte LF (Format toy_RFC3339 [reported "good-stack"; reported "other-stack"]).1
    = 2%nat.
Proof.
  assert (H : ∀ t, clean (toy_RFC3339 t) = true).
  { intros t. unfold toy_RFC3339. destruct (t <? _)%Z; reflexivity. }
  split; [exact H|].
  apply (TSV_shape toy_RFC3339 H [reported "good-stack"; reported "other-stack"]).
Defined.
(** ** The output formats *)

Lemma ValidateOutputFormat_true format :
  config.ValidateOutputFormat format = true ↔ format = "json" ∨ format = "tsv".
Proof.
  unfold config.ValidateOutputFormat.
  destruct (String.eqb_spec format "json") as [->|H1]; [split; auto|].
  destruct (String.eqb_spec format "tsv") as [->|H2]; [split; auto|].
  split; [discriminate | intros [?|?]; congruence].
Qed.

(** X9. The factory makes a formatter exactly for the formats the
    configuration check accepts, [json] and [tsv], compared byte by byte;
    for any other text it fails and the error names that text.  So once
    the check has passed, [formatOutput] is the formatter's own answer, and
    for [tsv] it cannot fail. *)
Theorem FormatterFactory_agrees_with_validation (format : string) :
  (config.ValidateOutputFormat format = true ↔ ∃ f, FormatterFactory format = Ok f) ∧
  (config.ValidateOutputFormat format = true ↔ format = "json" ∨ format = "tsv") ∧
  (config.ValidateOutputFormat format = false →
     FormatterFactory format
     = Err (errorString ("unsupported output format: " ++ format
                         ++ " (supported formats: json, tsv)"))) ∧
  (∀ Marshal Format_RFC3339 stacks,
     config.ValidateOutputFormat format = true →
     formatOutput Marshal Format_RFC3339 stacks format
     = if String.eqb format "json"
       then JSONFormatter_Format Marshal stacks
       else Ok (Format Format_RFC3339 stacks).1).
Proof.
  split; [|split; [apply ValidateOutputFormat_true|split]].
  - unfold config.ValidateOutputFormat, FormatterFactory.
    destruct (String.eqb format "json"); [split; eauto|].
    destruct (String.eqb format "tsv"); [split; eauto|].
    split; [discriminate | intros [f Hf]; discriminate].
  - unfold config.ValidateOutputFormat, FormatterFactory.
    destruct (String.eqb format "json"); [discriminate|].
    destruct (String.eqb format "tsv"); [discriminate | reflexivity].
  - intros Marshal Format_RFC3339 stacks.
    unfold config.ValidateOutputFormat, formatOutput, FormatterFactory.
    destruct (String.eqb format "json"); [reflexivity|].
    destruct (String.eqb format "tsv"); [|discriminate].
    intros _. cbn [Formatter_Format]. rewrite Format_lines. reflexivity.
Qed.

(** ** The AssumeRole configuration *)

(** X10. [Validate] accepts a configuration exactly when the role ARN is
    not empty, the duration lies between 900 and 43200 seconds, both
    bounds included, and the session name is not empty.  The role ARN is
    looked at first, then the duration, then the session name; the error
    about the duration prints the duration. *)
Theorem Validate_accepts (arc : config.AssumeRoleConfig) :
  (config.Validate arc = None ↔
   config.RoleARN arc ≠ "" ∧ (900 ≤ config.Duration arc ≤ 43200)%Z
   ∧ config.SessionName arc ≠ "") ∧
  (config.RoleARN arc = "" →
   config.Validate arc
   = Some (errorString "role ARN cannot be empty when using AssumeRole")) ∧
  (config.RoleARN arc ≠ "" → (config.Duration arc < 900 ∨ 43200 < config.Duration arc)%Z →
   config.Validate arc
   = Some (errorString ("session duration must be between 900 and 43200 seconds, got "
                        ++ pretty (config.Duration arc)))) ∧
  (config.RoleARN arc ≠ "" → (900 ≤ config.Duration arc ≤ 43200)%Z →
   config.SessionName arc = "" →
   config.Validate arc = Some (errorString "session name cannot be empty")).
Proof.
  unfold config.Validate.
  destruct (String.eqb_spec (config.RoleARN arc) "") as [Hr|Hr];
    [|destruct (Z.ltb_spec (config.Duration arc) 900) as [Hlo|Hlo]; cbn [orb];
      [|destruct (Z.ltb_spec 43200 (config.Duration arc)) as [Hhi|Hhi];
        [|destruct (String.eqb_spec (config.SessionName arc) "") as [Hs|Hs]]]];
    repeat split; intros;
    repeat match goal with H : _ ∧ _ |- _ => destruct H end;
    try discriminate; try congruence; try lia; auto.
Qed.

Example Validate_bounds :
  config.Validate (config.mkAssumeRoleConfig "r" "s" 900 "") = None ∧
  config.Validate (config.mkAssumeRoleConfig "r" "s" 43200 "") = None ∧
  config.Validate (config.mkAssumeRoleConfig "r" "s" 899 "")
  = Some (errorString "session duration must be between 900 and 43200 seconds, got 899") ∧
  config.Validate (config.mkAssumeRoleConfig "r" "s" (-1) "")
  = Some (errorString "session duration must be between 900 and 43200 seconds, got -1").
Proof. repeat split; vm_compute; reflexivity. Qed.
(** ** The entry point *)

Section MainTheorems.
Variable Marshal : list models.Stack → result string.
Variable Format_RFC3339 : Time → string.
Variable CreateClient : aws_auth.AuthConfig → result NewClient.

Lemma detect_region (cl : AWSClient) (r : string) sched out err :
  DetectServerlessStacks (NewDetector cl r) sched = Some (out, err) →
  Forall (λ x, models.Region x = r) out.
Proof.
  intros Hrun. apply Forall_forall. intros x Hx.
  destruct (ListActiveStacks cl) as [summaries|e] eqn:Hl.
  - destruct (detect_elem (NewDetector cl r) (λ _, True) sched summaries out err x
                ltac:(apply Forall_forall; auto) Hl Hrun Hx) as (now & s & _ & _ & Hp).
    apply processStack_Some in Hp as (name & resources & reasons & _ & _ & _ & ->).
    destruct (convertToModel_fields (NewDetector cl r) now s
                (details_of (NewDetector cl r) name) reasons) as (_ & _ & H3 & _).
    exact H3.
  - unfold DetectServerlessStacks in Hrun. cbn [client NewDetector] in Hrun.
    rewrite Hl in Hrun. injection Hrun as <- _. inversion Hx.
Qed.

Lemma formatOutput_tsv stacks :
  formatOutput Marshal Format_RFC3339 stacks "tsv" = Ok (Format Format_RFC3339 stacks).1.
Proof.
  unfold formatOutput. change (FormatterFactory "tsv") with (Ok TSVFormatter).
  cbn [Formatter_Format]. rewrite Format_lines. reflexivity.
Qed.

(** X11. [runDetection] hands a listing error on inside a wrapper that
    keeps it as its cause and puts [failed to detect serverless stacks: ]
    before its text.  When the listing succeeds and the format is [tsv],
    every run can be continued until the call returns, and what it returns
    is never an error: it is the TSV text of the reported stacks, all of
    which carry the region of the configuration. *)
Theorem runDetection_result (sched : list Event) (cl : AWSClient) (cfg : config.Config) :
  (∀ e, ListActiveStacks cl = Err e →
     runDetection Marshal Format_RFC3339 sched cl cfg
     = Some (Err (wrapError ("failed to detect serverless stacks: " ++ Error e) e))) ∧
  (∀ summaries, ListActiveStacks cl = Ok summaries →
     config.OutputFormat cfg = "tsv" →
     (∃ more r, runDetection Marshal Format_RFC3339 (sched ++ more) cl cfg = Some r) ∧
     (∀ r, runDetection Marshal Format_RFC3339 sched cl cfg = Some r →
        ∃ out,
          DetectServerlessStacks (NewDetector cl (config.Region cfg)) sched
          = Some (out, None) ∧
          r = Ok (Format Format_RFC3339 out).1 ∧
          Forall (λ x, models.Region x = config.Region cfg) out)).
Proof.
  split.
  - intros e Hl. unfold runDetection, DetectServerlessStacks. cbv zeta.
    cbn [client NewDetector]. rewrite Hl. reflexivity.
  - intros summaries Hl Hfmt.
    assert (Hd : ∀ s out err,
               DetectServerlessStacks (NewDetector cl (config.Region cfg)) s
               = Some (out, err) → err = None).
    { intros s out err. unfold DetectServerlessStacks. cbn [client NewDetector]. rewrite Hl.
      intros Hrun.
      destruct (processStacksConcurrently_outcome (NewDetector cl (config.Region cfg))
                  (λ _, True) s summaries out err)
        as [-> _]; [apply Forall_forall; auto | exact Hrun | reflexivity]. }
    split.
    + destruct (run_can_complete (NewDetector cl (config.Region cfg)) 0%Z sched summaries)
        as (more & out & _ & Hrun).
      exists more. unfold runDetection, DetectServerlessStacks. cbv zeta.
      cbn [client NewDetector] in *. rewrite Hl, Hrun. eexists. reflexivity.
    + intros r. unfold runDetection. cbv zeta.
      destruct (DetectServerlessStacks _ sched) as [[out err]|] eqn:Hrun; [|discriminate].
      pose proof (Hd _ _ _ Hrun) as ->. intros [= <-].
      exists out. split; [reflexivity|]. split.
      * rewrite Hfmt. apply formatOutput_tsv.
      * apply (detect_region _ _ _ _ _ Hrun).
Qed.

Lemma runCommand_checks (sched : list Event) (f : Flags) :
  runCommand Marshal Format_RFC3339 CreateClient sched f
  = match flag_error f with
    | Some err => Some (Err err)
    | None =>
        match createAWSClient CreateClient (config_of f) with
        | Err err => Some (Err (Errorf_w "failed to create AWS client" err))
        | Ok cl =>
            match runDetection Marshal Format_RFC3339 sched cl (config_of f) with
            | None => None
            | Some (Err err) => Some (Err (Errorf_w "detection failed" err))
            | Some (Ok result) => Some (Ok result)
            end
        end
    end.
Proof.
  unfold runCommand, flag_error. cbv zeta.
  change (config.OutputFormat (config_of f)) with (outputFormat f).
  change (config.Region (config_of f)) with (flag_region f).
  destruct (config.ValidateOutputFormat (outputFormat f)); cbn [negb]; [|reflexivity].
  destruct (String.eqb (flag_region f) ""); [reflexivity|].
  unfold config_of at 1. cbn [config.AssumeRole].
  destruct (String.eqb_spec (assumeRole f) "") as [H|H]; [reflexivity|].
  unfold config.Validate. cbn [config.RoleARN config.Duration config.SessionName].
  destruct (String.eqb_spec (assumeRole f) ""); [contradiction|].
  destruct ((duration f <? 900)%Z || (43200 <? duration f)%Z); [reflexivity|].
  destruct (String.eqb (sessionName f) ""); reflexivity.
Qed.

Lemma flag_error_None (f : Flags) : flag_error f = None ↔ valid_flags f.
Proof.
  unfold flag_error, valid_flags.
  destruct (config.ValidateOutputFormat (outputFormat f)) eqn:Hv; cbn [negb].
  - apply ValidateOutputFormat_true in Hv.
    destruct (String.eqb_spec (flag_region f) "") as [Hr|Hr];
      [split; [discriminate | intros (_ & ? & _); contradiction]|].
    destruct (String.eqb_spec (assumeRole f) "") as [Ha|Ha];
      [split; [intros _; repeat split; auto; intros; contradiction | reflexivity]|].
    destruct (Z.ltb_spec (duration f) 900); cbn [orb];
      [split; [discriminate | intros (_ & _ & H'); destruct (H' Ha); lia]|].
    destruct (Z.ltb_spec 43200 (duration f));
      [split; [discriminate | intros (_ & _ & H'); destruct (H' Ha); lia]|].
    destruct (String.eqb_spec (sessionName f) "") as [Hs|Hs];
      [split; [discriminate | intros (_ & _ & H'); destruct (H' Ha); contradiction]|].
    split; [|reflexivity]. intros _. repeat split; auto; lia.
  - split; [discriminate|]. intros (H & _). apply ValidateOutputFormat_true in H. congruence.
Qed.

(** X12. When [runCommand] prints a result, the flags have passed every
    check, AWS gave a client, the listing of the credential check and the
    listing of the detection both succeeded, and the detection returned
    without error; for the format [tsv] the text printed is the TSV of the
    stacks detected in the region of the flags. *)
Theorem runCommand_success (sched : list Event) (f : Flags) (text : string) :
  runCommand Marshal Format_RFC3339 CreateClient sched f = Some (Ok text) →
  valid_flags f ∧
  ∃ cl checked summaries out,
    CreateClient (auth_of (config_of f)) = Ok cl ∧
    first_listing cl = Ok checked ∧
    ListActiveStacks (thereafter cl) = Ok summaries ∧
    DetectServerlessStacks (NewDetector (thereafter cl) (flag_region f)) sched
    = Some (out, None) ∧
    (outputFormat f = "tsv" → text = (Format Format_RFC3339 out).1).
Proof.
  rewrite runCommand_checks.
  destruct (flag_error f) as [err|] eqn:Hfe; [discriminate|].
  apply flag_error_None in Hfe. intros Hrun. split; [exact Hfe|].
  unfold createAWSClient in Hrun. cbv zeta in Hrun.
  destruct (CreateClient (auth_of (config_of f))) as [cl|e]; [|discriminate].
  destruct (first_listing cl) as [checked|e] eqn:Hc; [|discriminate].
  unfold runDetection in Hrun. cbv zeta in Hrun.
  change (config.Region (config_of f)) with (flag_region f) in Hrun.
  change (config.OutputFormat (config_of f)) with (outputFormat f) in Hrun.
  destruct (DetectServerlessStacks (NewDetector (thereafter cl) (flag_region f)) sched)
    as [[out [err|]]|] eqn:Hd; try discriminate.
  destruct (ListActiveStacks (thereafter cl)) as [summaries|e] eqn:Hl.
  - exists cl, checked, summaries, out.
    split; [reflexivity|]. split; [exact Hc|]. split; [exact Hl|]. split; [exact Hd|].
    intros Hfmt. rewrite Hfmt, formatOutput_tsv in Hrun. congruence.
  - unfold DetectServerlessStacks in Hd. cbn [client NewDetector] in Hd.
    rewrite Hl in Hd. discriminate Hd.
Qed.

(** X13. When the flags pass the checks but AWS fails, [runCommand]
    returns an error that keeps the failure as a cause in its chain.  A
    failure to build the client is reported with the prefix [failed to
    create AWS client: ] twice.  The listing is called twice: a failure of
    the first call, the credential check, is reported as [AWS credentials
    validation failed]; a failure of the second call, after the check has
    passed, is reported as [detection failed: failed to detect serverless
    stacks], under every schedule. *)
Theorem runCommand_aws_failure (sched : list Event) (f : Flags) :
  valid_flags f →
  (∀ e, CreateClient (auth_of (config_of f)) = Err e →
     ∃ err,
       runCommand Marshal Format_RFC3339 CreateClient sched f = Some (Err err) ∧
       Error err = "failed to create AWS client: failed to create AWS client: " ++ Error e ∧
       e ∈ chain err) ∧
  (∀ cl e, CreateClient (auth_of (config_of f)) = Ok cl →
     first_listing cl = Err e →
     ∃ err,
       runCommand Marshal Format_RFC3339 CreateClient sched f = Some (Err err) ∧
       Error err
       = "failed to create AWS client: AWS credentials validation failed: " ++ Error e ∧
       e ∈ chain err) ∧
  (∀ cl checked e, CreateClient (auth_of (config_of f)) = Ok cl →
     first_listing cl = Ok checked →
     ListActiveStacks (thereafter cl) = Err e →
     ∃ err,
       runCommand Marshal Format_RFC3339 CreateClient sched f = Some (Err err) ∧
       Error err
       = "detection failed: failed to detect serverless stacks: " ++ Error e ∧
       e ∈ chain err).
Proof.
  intros Hv. rewrite runCommand_checks.
  apply flag_error_None in Hv. rewrite Hv. unfold createAWSClient. cbv zeta.
  assert (Hself : ∀ e : error, e ∈ chain e) by (intros [?|? ?]; left).
  split; [|split].
  - intros e ->. eexists. split; [reflexivity|]. split; [reflexivity|].
    cbn [Errorf_w chain]. right. right. apply Hself.
  - intros cl e -> ->. eexists. split; [reflexivity|]. split; [reflexivity|].
    cbn [Errorf_w chain]. right. right. apply Hself.
  - intros cl checked e -> -> Hl.
    unfold runDetection, DetectServerlessStacks. cbv zeta. cbn [client NewDetector].
    rewrite Hl. eexists. split; [reflexivity|]. split; [reflexivity|].
    cbn [Errorf_w chain]. right. right. apply Hself.
Qed.

End MainTheorems.

(** X14. Flags that fail a check are refused before AWS is reached: the
    error is the same whatever AWS, the JSON encoder and the scheduler
    would do.  It is the error of the first failing check (the format,
    the region, the duration, the session name) and never the error of
    [Validate] about an empty role ARN: the role is only configured when
    its flag is not empty. *)
Theorem runCommand_invalid_flags (f : Flags) :
  ¬ valid_flags f →
  ∃ err,
    flag_error f = Some err ∧
    (∀ Marshal Format_RFC3339 CreateClient sched,
       runCommand Marshal Format_RFC3339 CreateClient sched f = Some (Err err)) ∧
    err ≠ Errorf_w "AssumeRole configuration invalid"
            (errorString "role ARN cannot be empty when using AssumeRole").
Proof.
  intros Hnv. destruct (flag_error f) as [err|] eqn:Hfe;
    [|apply flag_error_None in Hfe; contradiction].
  exists err. split; [reflexivity|]. split.
  - intros Marshal Format_RFC3339 CreateClient sched.
    rewrite runCommand_checks, Hfe. reflexivity.
  - revert Hfe. unfold flag_error.
    destruct (negb _); [intros [= <-]; discriminate|].
    destruct (String.eqb (flag_region f) ""); [intros [= <-]; discriminate|].
    destruct (String.eqb (assumeRole f) ""); [discriminate|].
    destruct (_ || _); [intros [= <-] H; injection H as _ H; discriminate H|].
    destruct (String.eqb (sessionName f) ""); [|discriminate].
    intros [= <-] H; injection H as _ H; discriminate H.
Qed.

Lemma runCommand_invalid_flags_witness :
  ¬ valid_flags xml_flags ∧
  ∃ err,
    flag_error xml_flags = Some err ∧
    (∀ Marshal Format_RFC3339 CreateClient sched,
       runCommand Marshal Format_RFC3339 CreateClient sched xml_flags = Some (Err err)) ∧
    err ≠ Errorf_w "AssumeRole configuration invalid"
            (errorString "role ARN cannot be empty when using AssumeRole").
Proof.
  assert (H : ¬ valid_flags xml_flags).
  { intros ([H|H] & _); discriminate H. }
  split; [exact H|]. apply (runCommand_invalid_flags xml_flags H).
Defined.

Lemma runCommand_success_witness :
  ∃ text,
    runCommand toy_Marshal toy_RFC3339 (λ _, Ok (steady selective_client))
      (sequential a_clock_reading 3 3) tsv_flags = Some (Ok text) ∧
    valid_flags tsv_flags.
Proof.
  eexists. split; [vm_compute; reflexivity|].
  eapply (runCommand_success toy_Marshal toy_RFC3339 (λ _, Ok (steady selective_client))
            (sequential a_clock_reading 3 3) tsv_flags).
  vm_compute. reflexivity.
Defined.

Lemma runCommand_aws_failure_witness :
  valid_flags tsv_flags ∧
  (∃ err,
     runCommand toy_Marshal toy_RFC3339 (λ _, Ok (steady denied_client)) [] tsv_flags
     = Some (Err err) ∧
     Error err
     = "failed to create AWS client: AWS credentials validation failed: access denied to list stacks") ∧
  (∃ err,
     runCommand toy_Marshal toy_RFC3339 (λ _, Ok revoked_client) [] tsv_flags
     = Some (Err err) ∧
     Error err
     = "detection failed: failed to detect serverless stacks: access denied to list stacks").
Proof.
  assert (H : valid_flags tsv_flags).
  { split; [right; reflexivity|]. split; [discriminate|]. intros _.
    split; [cbn [duration tsv_flags]; lia | discriminate]. }
  split; [exact H|]. split.
  - destruct (runCommand_aws_failure toy_Marshal toy_RFC3339
                (λ _, Ok (steady denied_client)) [] tsv_flags H) as (_ & H2 & _).
    destruct (H2 (steady denied_client) (errorString "access denied to list stacks")
                eq_refl eq_refl) as (err & Hrun & Htext & _).
    exists err. split; [exact Hrun | exact Htext].
  - destruct (runCommand_aws_failure toy_Marshal toy_RFC3339
                (λ _, Ok revoked_client) [] tsv_flags H) as (_ & _ & H3).
    destruct (H3 revoked_client [] (errorString "access denied to list stacks")
                eq_refl eq_refl eq_refl) as (err & Hrun & Htext & _).
    exists err. split; [exact Hrun | exact Htext].
Defined.

(** ** The AWS client wrappers: errors *)

Section HandleError.
Import aws.

Lemma handleError_shape (region : string) (e : err) :
  ∃ e',
    handleError region (Some e) = Some e' ∧
    (e' = e ∨ ∃ t m, e' = Custom t m (Some e)) ∧
    (e' = e ∨ Unwrap e' = Some e) ∧
    is_Some (As_Custom e').
Proof.
  unfold handleError.
  assert (Hc : ∀ t m, ∃ e',
             Some (Custom t m (Some e)) = Some e' ∧
             (e' = e ∨ ∃ t0 m0, e' = Custom t0 m0 (Some e)) ∧
             (e' = e ∨ Unwrap e' = Some e) ∧ is_Some (As_Custom e')).
  { intros t m. eexists. split; [reflexivity|].
    split; [right; eauto|]. split; [right; reflexivity | eexists; reflexivity]. }
  cbv zeta.
  destruct (As_APIError e) as [[code message]|].
  - destruct (_ || _); [apply Hc|].
    destruct (_ || _); [apply Hc|].
    destruct (String.eqb code "InvalidParameterValue").
    + destruct (Contains message "region"); [apply Hc|].
      destruct (_ || _); [apply Hc|]. destruct (_ || _); [apply Hc|].
      destruct (As_Custom e) eqn:Ha; [|apply Hc].
      exists e. rewrite Ha. repeat split; eauto.
    + destruct (_ || _); [apply Hc|]. destruct (_ || _); [apply Hc|].
      destruct (As_Custom e) eqn:Ha; [|apply Hc].
      exists e. rewrite Ha. repeat split; eauto.
  - destruct (_ || _); [apply Hc|]. destruct (_ || _); [apply Hc|].
    destruct (As_Custom e) eqn:Ha; [|apply Hc].
    exists e. rewrite Ha. repeat split; eauto.
Qed.

(** X15. [handleError] maps the nil error to nil and no other error to
    nil.  What it returns for an error is that error itself or an
    [*Error] of this package with that error as its cause, and in both
    cases [errors.As] finds an [*Error] in it: every error that leaves the
    rate-limited client carries a type. *)
Theorem handleError_keeps_cause (region : string) :
  handleError region None = None ∧
  ∀ e, ∃ e',
    handleError region (Some e) = Some e' ∧
    (e' = e ∨ ∃ t m, e' = Custom t m (Some e)) ∧
    (e' = e ∨ Unwrap e' = Some e) ∧
    is_Some (As_Custom e').
Proof. split; [reflexivity | apply handleError_shape]. Qed.

Lemma limited_classified {A} region wait (answer : option A * option err) e :
  (limited region wait answer).2 = Some e → is_Some (As_Custom e).
Proof.
  unfold limited. destruct wait as [w|].
  - intros [= <-]. eexists. reflexivity.
  - destruct answer as [output [e0|]]; cbn [snd]; [|discriminate].
    destruct (handleError_shape region e0) as (e' & -> & _ & _ & H).
    intros [= <-]. exact H.
Qed.

End HandleError.

(** ** The AWS client wrappers: the retry loop *)

Section Retry.
Import aws.
Context {A : Type}.
Variable maxRetries : Z.
Variable operation : nat → option A * option err.

Lemma retry_loop_turn (turns attempt : nat) r l s :
  retry_loop maxRetries operation (S turns) attempt r l s
  = if stops (operation attempt)
    then mkRun (operation attempt).1 (operation attempt).2 (S attempt) s
    else retry_loop maxRetries operation turns (S attempt)
           (operation attempt).1 (operation attempt).2
           (if (Z.of_nat attempt <? maxRetries)%Z
            then (s ++ [backoffDuration attempt])%list else s).
Proof.
  cbn [retry_loop]. unfold stops.
  destruct (operation attempt) as [res [e|]]; cbn [fst snd]; [|reflexivity].
  destruct (As_Custom e) as [t|]; [destruct (negb (isRetryableError t))|]; reflexivity.
Qed.

Lemma retry_loop_stops (k : nat) :
  ∀ turns attempt r l s,
    (k < turns)%nat →
    (Z.of_nat (attempt + k) ≤ maxRetries)%Z →
    (∀ j, (j < k)%nat → stops (operation (attempt + j)) = false) →
    stops (operation (attempt + k)) = true →
    retry_loop maxRetries operation turns attempt r l s
    = mkRun (operation (attempt + k)).1 (operation (attempt + k)).2 (S (attempt + k))
            (s ++ (backoffDuration <$> seq attempt k)).
Proof.
  induction k as [|k IH]; intros turns attempt r l s Hlt Hle Hno Hstop;
    (destruct turns as [|turns]; [lia|]); rewrite retry_loop_turn.
  - rewrite Nat.add_0_r in *. rewrite Hstop. cbn [seq fmap list_fmap].
    rewrite app_nil_r. reflexivity.
  - assert (H0 : stops (operation attempt) = false)
      by (rewrite <- (Nat.add_0_r attempt); apply Hno; lia).
    rewrite H0.
    destruct (Z.ltb_spec (Z.of_nat attempt) maxRetries); [|lia].
    rewrite (IH turns (S attempt)).
    + replace (S attempt + k)%nat with (attempt + S k)%nat by lia.
      cbn [seq fmap list_fmap]. rewrite <- app_assoc. reflexivity.
    + lia.
    + replace (S attempt + k)%nat with (attempt + S k)%nat by lia. exact Hle.
    + intros j Hj. replace (S attempt + j)%nat with (attempt + S j)%nat by lia.
      apply Hno. lia.
    + replace (S attempt + k)%nat with (attempt + S k)%nat by lia. exact Hstop.
Qed.

Lemma retry_loop_exhausted :
  ∀ turns attempt r l s,
    Z.of_nat (attempt + turns) = maxRetries →
    (∀ j, (j ≤ turns)%nat → stops (operation (attempt + j)) = false) →
    retry_loop maxRetries operation (S turns) attempt r l s
    = mkRun (operation (attempt + turns)).1 (operation (attempt + turns)).2
            (S (attempt + turns)) (s ++ (backoffDuration <$> seq attempt turns)).
Proof.
  induction turns as [|turns IH]; intros attempt r l s Hm Hno; rewrite retry_loop_turn.
  - assert (H0 : stops (operation attempt) = false)
      by (rewrite <- (Nat.add_0_r attempt); apply Hno; lia).
    rewrite Nat.add_0_r in *. rewrite H0. cbn [retry_loop].
    destruct (Z.ltb_spec (Z.of_nat attempt) maxRetries); [lia|].
    cbn [seq fmap list_fmap]. rewrite app_nil_r. reflexivity.
  - assert (H0 : stops (operation attempt) = false)
      by (rewrite <- (Nat.add_0_r attempt); apply Hno; lia).
    rewrite H0.
    destruct (Z.ltb_spec (Z.of_nat attempt) maxRetries); [|lia].
    rewrite (IH (S attempt)).
    + replace (S attempt + turns)%nat with (attempt + S turns)%nat by lia.
      cbn [seq fmap list_fmap]. rewrite <- app_assoc. reflexivity.
    + lia.
    + intros j Hj. replace (S attempt + j)%nat with (attempt + S j)%nat by lia.
      apply Hno. lia.
Qed.

(** X16. The loop ends at the first answer that is a success or an
    [*Error] of a type that is not retried: when that is the answer of
    call [k], with [k] at most [maxRetries], the loop returns that answer
    after [k + 1] calls, having slept once after each of the [k] calls
    before, for the durations of attempts 0 to [k - 1] in order. *)
Theorem retry_ends_at_first_stop (k : nat) :
  (Z.of_nat k ≤ maxRetries)%Z →
  (∀ j, (j < k)%nat → stops (operation j) = false) →
  stops (operation k) = true →
  retry maxRetries operation
  = mkRun (operation k).1 (operation k).2 (S k) (backoffDuration <$> seq 0 k).
Proof.
  intros Hk Hno Hstop. unfold retry.
  apply (retry_loop_stops k (Z.to_nat (maxRetries + 1)) 0 None None []); auto. lia.
Qed.

(** X17. When no answer ends the loop, it gives up after
    [maxRetries + 1] calls and returns the last answer; it has slept
    [maxRetries] times, once between two calls and not after the last. *)
Theorem retry_gives_up :
  (0 ≤ maxRetries)%Z →
  (∀ j, (Z.of_nat j ≤ maxRetries)%Z → stops (operation j) = false) →
  retry maxRetries operation
  = mkRun (operation (Z.to_nat maxRetries)).1 (operation (Z.to_nat maxRetries)).2
          (S (Z.to_nat maxRetries)) (backoffDuration <$> seq 0 (Z.to_nat maxRetries)).
Proof.
  intros Hm Hno. unfold retry.
  replace (Z.to_nat (maxRetries + 1)) with (S (Z.to_nat maxRetries)) by lia.
  apply (retry_loop_exhausted (Z.to_nat maxRetries) 0 None None []); [lia|].
  intros j Hj. apply Hno. lia.
Qed.

End Retry.

(** ** The AWS client wrappers: how often the loop calls and sleeps *)

Section RetryCounts.
Import aws.
Context {A : Type}.
Variable maxRetries : Z.
Variable operation : nat → option A * option err.

Lemma retry_loop_counts :
  ∀ turns attempt r l s,
    Z.of_nat (attempt + S turns) = (maxRetries + 1)%Z →
    let run := retry_loop maxRetries operation (S turns) attempt r l s in
    (attempt < calls run ≤ attempt + S turns)%nat ∧
    (length (slept run) + S attempt = length s + calls run)%nat ∧
    (result run, lastErr run) = operation (calls run - 1).
Proof.
  assert (Hlast : ∀ attempt, operation (S attempt - 1) = ((operation attempt).1, (operation attempt).2)).
  { intros attempt. replace (S attempt - 1)%nat with attempt by lia.
    destruct (operation attempt); reflexivity. }
  induction turns as [|turns IH]; intros attempt r l s Hm; cbv zeta; rewrite retry_loop_turn.
  - destruct (stops (operation attempt)).
    + cbn [calls slept result lastErr]. rewrite Hlast. split; [lia|]. split; [lia | reflexivity].
    + destruct (Z.ltb_spec (Z.of_nat attempt) maxRetries); [lia|].
      cbn [retry_loop calls slept result lastErr]. rewrite Hlast.
      split; [lia|]. split; [lia | reflexivity].
  - destruct (stops (operation attempt)).
    + cbn [calls slept result lastErr]. rewrite Hlast.
      split; [lia|]. split; [lia | reflexivity].
    + destruct (Z.ltb_spec (Z.of_nat attempt) maxRetries); [|lia].
      specialize (IH (S attempt) (operation attempt).1 (operation attempt).2
                     (s ++ [backoffDuration attempt])%list ltac:(lia)).
      cbv zeta in IH. destruct IH as (H1 & H2 & H3).
      rewrite length_app in H2. cbn [length] in H2.
      split; [lia|]. split; [lia | exact H3].
Qed.

(** X18. With [maxRetries] not negative the operation is called at least
    once and at most [maxRetries + 1] times; the loop sleeps once between
    two calls and never after the last one; and what it returns is the
    answer of the last call it made.  With [maxRetries] negative the
    operation is never called and the loop returns a nil result and a nil
    error. *)
Theorem retry_counts :
  let run := retry maxRetries operation in
  ((0 ≤ maxRetries)%Z →
   (1 ≤ calls run)%nat ∧ (Z.of_nat (calls run) ≤ maxRetries + 1)%Z ∧
   length (slept run) = (calls run - 1)%nat ∧
   (result run, lastErr run) = operation (calls run - 1)) ∧
  ((maxRetries < 0)%Z → run = mkRun None None 0 []).
Proof.
  cbv zeta. unfold retry. split.
  - intros Hm. replace (Z.to_nat (maxRetries + 1)) with (S (Z.to_nat maxRetries)) by lia.
    pose proof (retry_loop_counts (Z.to_nat maxRetries) 0 None None [] ltac:(lia)) as H.
    cbv zeta in H. destruct H as (H1 & H2 & H3). cbn [length] in H2.
    split; [lia|]. split; [lia|]. split; [lia | exact H3].
  - intros Hm. replace (Z.to_nat (maxRetries + 1)) with 0%nat by lia. reflexivity.
Qed.

End RetryCounts.

Section RetryClient.
Import aws.

(** X19. A client built by [NewRetryableClient] has a positive
    [maxRetries]: the value asked for, or 3 when that is zero or negative.
    So each of its methods calls the operation at least once, and with the
    default at most four times. *)
Theorem NewRetryableClient_calls {A} (asked : Z) (operation : nat → option A * option err) :
  let maxRetries := NewRetryableClient_maxRetries asked in
  let run := retry maxRetries operation in
  (0 < maxRetries)%Z ∧
  ((0 < asked)%Z → maxRetries = asked) ∧
  ((asked ≤ 0)%Z → maxRetries = 3%Z ∧ (calls run ≤ 4)%nat) ∧
  (1 ≤ calls run)%nat ∧ (Z.of_nat (calls run) ≤ maxRetries + 1)%Z.
Proof.
  cbv zeta.
  assert (Hpos : (0 < NewRetryableClient_maxRetries asked)%Z)
    by (unfold NewRetryableClient_maxRetries; destruct (Z.leb_spec asked 0); lia).
  pose proof (retry_loop_counts (NewRetryableClient_maxRetries asked) operation
                (Z.to_nat (NewRetryableClient_maxRetries asked)) 0 None None [] ltac:(lia)) as H.
  cbv zeta in H. destruct H as (H1 & _ & _).
  unfold retry.
  replace (Z.to_nat (NewRetryableClient_maxRetries asked + 1))
    with (S (Z.to_nat (NewRetryableClient_maxRetries asked))) by lia.
  split; [exact Hpos|]. split; [|split; [|split; [lia | lia]]].
  - intros Ha. unfold NewRetryableClient_maxRetries. destruct (Z.leb_spec asked 0); lia.
  - intros Ha.
    assert (H3 : NewRetryableClient_maxRetries asked = 3%Z)
      by (unfold NewRetryableClient_maxRetries; destruct (Z.leb_spec asked 0); lia).
    split; [exact H3|]. rewrite H3 in H1 |- *. change (Z.to_nat 3) with 3%nat in H1 |- *. lia.
Qed.

(** X20. The sleep before retry number [attempt + 1] lasts [2 ^ attempt]
    seconds as long as [attempt] is at most 33; a loop that gives up after
    [n] sleeps, [n] at most 34, has slept [2 ^ n - 1] seconds in all.  At
    attempt 34 the multiplication overflows to a negative duration, and
    from attempt 64 on the shift gives zero: these sleeps return at
    once. *)
Theorem backoffDuration_seconds :
  (∀ attempt, (attempt ≤ 33)%nat →
     backoffDuration attempt = (2 ^ Z.of_nat attempt * 1000000000)%Z) ∧
  (∀ n, (n ≤ 34)%nat →
     foldr Z.add 0%Z (backoffDuration <$> seq 0 n) = ((2 ^ Z.of_nat n - 1) * 1000000000)%Z) ∧
  (backoffDuration 34 < 0)%Z ∧
  (∀ attempt, (64 ≤ attempt)%nat → backoffDuration attempt = 0%Z).
Proof.
  assert (H33 : ∀ attempt, (attempt ≤ 33)%nat →
            backoffDuration attempt = (2 ^ Z.of_nat attempt * 1000000000)%Z).
  { intros attempt Ha.
    do 34 (destruct attempt as [|attempt]; [vm_compute; reflexivity|]). lia. }
  split; [exact H33|]. split; [|split].
  - induction n as [|n IH]; intros Hn; [reflexivity|].
    rewrite seq_S, fmap_app, foldr_app. cbn [fmap list_fmap foldr Nat.add].
    rewrite H33 by lia.
    assert (Hf : ∀ (l : list Z) a, foldr Z.add a l = (foldr Z.add 0 l + a)%Z).
    { induction l as [|x l IHl]; intros a; cbn [foldr]; [lia|]. rewrite IHl. lia. }
    rewrite Hf, IH by lia.
    rewrite Nat2Z.inj_succ, Z.pow_succ_r by lia. lia.
  - vm_compute. reflexivity.
  - intros attempt Ha. unfold backoffDuration, wrap64.
    rewrite Z.shiftl_1_l.
    assert (H : (2 ^ Z.of_nat attempt = 2 ^ 64 * 2 ^ (Z.of_nat attempt - 64))%Z).
    { rewrite <- Z.pow_add_r by lia. f_equal. lia. }
    rewrite H.
    replace (2 ^ 64 * 2 ^ (Z.of_nat attempt - 64) + 2 ^ 63)%Z
      with (2 ^ 63 + 2 ^ (Z.of_nat attempt - 64) * 2 ^ 64)%Z by lia.
    rewrite Z_mod_plus_full. reflexivity.
Qed.

End RetryClient.
Lemma retry_ends_at_first_stop_witness :
  aws.retry 3 third_time_lucky
  = aws.mkRun (Some "page") None 3 [1000000000%Z; 2000000000%Z].
Proof.
  apply (retry_ends_at_first_stop 3 third_time_lucky 2).
  - lia.
  - intros j Hj. destruct j as [|[|j]]; [reflexivity | reflexivity | lia].
  - reflexivity.
Defined.

Lemma retry_gives_up_witness :
  aws.retry 2 always_throttled
  = aws.mkRun None
      (Some (aws.Custom aws.ErrorTypeRateLimit "AWS API rate limit exceeded" (Some throttled)))
      3 [1000000000%Z; 2000000000%Z].
Proof.
  apply (retry_gives_up 2 always_throttled).
  - lia.
  - intros j Hj. reflexivity.
Defined.

(** ** The AWS client wrappers: a call through both wrappers *)

Section RetryableCall.
Import aws.
Context {A : Type}.
Variable region : string.
Variable maxRetries : Z.
Variable wait : nat → option err.
Variable answer : nat → option A * option err.

Lemma limited_permission (k : nat) e code message :
  wait k = None →
  (answer k).2 = Some e →
  As_APIError e = Some (code, message) →
  code = "AccessDenied" ∨ code = "UnauthorizedOperation" →
  limited region (wait k) (answer k)
  = ((answer k).1, Some (Custom ErrorTypePermission "insufficient AWS permissions" (Some e))).
Proof.
  intros Hw Ha Hc Hcode. unfold limited. rewrite Hw.
  destruct (answer k) as [output err0]. cbn [fst snd] in *. subst err0.
  unfold handleError. rewrite Hc. destruct Hcode as [-> | ->]; reflexivity.
Qed.

Lemma limited_throttled (k : nat) e code message :
  wait k = None →
  (answer k).2 = Some e →
  As_APIError e = Some (code, message) →
  code = "Throttling" ∨ code = "RequestLimitExceeded" ∨ code = "TooManyRequestsException" →
  limited region (wait k) (answer k)
  = ((answer k).1, Some (Custom ErrorTypeRateLimit "AWS API rate limit exceeded" (Some e))).
Proof.
  intros Hw Ha Hc Hcode. unfold limited. rewrite Hw.
  destruct (answer k) as [output err0]. cbn [fst snd] in *. subst err0.
  unfold handleError. rewrite Hc. destruct Hcode as [-> | [-> | ->]]; reflexivity.
Qed.

(** X21. An API error with code AccessDenied or UnauthorizedOperation is
    not retried: the method of the retrying client calls the wrapped
    client once, does not sleep, and returns the output of that call with
    an [*Error] of type PERMISSION_DENIED that has the API error as its
    cause. *)
Theorem permission_error_not_retried e code message :
  (0 ≤ maxRetries)%Z →
  wait 0 = None →
  (answer 0).2 = Some e →
  As_APIError e = Some (code, message) →
  code = "AccessDenied" ∨ code = "UnauthorizedOperation" →
  retryable_call region maxRetries wait answer
  = mkRun (answer 0).1
      (Some (Custom ErrorTypePermission "insufficient AWS permissions" (Some e))) 1 [].
Proof.
  intros Hm Hw Ha Hc Hcode. unfold retryable_call, retry.
  pose proof (limited_permission 0 e code message Hw Ha Hc Hcode) as Hl.
  rewrite (retry_loop_stops maxRetries _ 0 (Z.to_nat (maxRetries + 1)) 0 None None []).
  - cbn [Nat.add]. rewrite Hl. reflexivity.
  - lia.
  - cbn [Nat.add]. lia.
  - intros j Hj. lia.
  - cbn [Nat.add]. rewrite Hl. reflexivity.
Qed.

(** X22. Throttling is retried to the end: when every call is answered
    by an API error with a throttling code, the method makes
    [maxRetries + 1] calls, sleeps between them for the whole backoff
    sequence, and returns the output of the last call with an [*Error] of
    type RATE_LIMIT around the last API error. *)
Theorem throttling_retried_to_the_end (errs : nat → err) :
  (0 ≤ maxRetries)%Z →
  (∀ k, (Z.of_nat k ≤ maxRetries)%Z →
     wait k = None ∧ (answer k).2 = Some (errs k) ∧
     ∃ code message,
       As_APIError (errs k) = Some (code, message) ∧
       (code = "Throttling" ∨ code = "RequestLimitExceeded"
        ∨ code = "TooManyRequestsException")) →
  retryable_call region maxRetries wait answer
  = mkRun (answer (Z.to_nat maxRetries)).1
      (Some (Custom ErrorTypeRateLimit "AWS API rate limit exceeded"
               (Some (errs (Z.to_nat maxRetries)))))
      (S (Z.to_nat maxRetries)) (backoffDuration <$> seq 0 (Z.to_nat maxRetries)).
Proof.
  intros Hm Hall. unfold retryable_call, retry.
  assert (Hl : ∀ k, (Z.of_nat k ≤ maxRetries)%Z →
            limited region (wait k) (answer k)
            = ((answer k).1,
               Some (Custom ErrorTypeRateLimit "AWS API rate limit exceeded" (Some (errs k))))).
  { intros k Hk. destruct (Hall k Hk) as (Hw & Ha & code & message & Hc & Hcode).
    exact (limited_throttled k (errs k) code message Hw Ha Hc Hcode). }
  replace (Z.to_nat (maxRetries + 1)) with (S (Z.to_nat maxRetries)) by lia.
  rewrite (retry_loop_exhausted maxRetries _ (Z.to_nat maxRetries) 0 None None []).
  - cbn [Nat.add]. rewrite Hl by lia. reflexivity.
  - lia.
  - intros j Hj. cbn [Nat.add]. rewrite Hl by lia. reflexivity.
Qed.

(** X23. A failure of the rate limiter is retried like throttling: when
    [limiter.Wait] fails at every call, as it does once the context is
    cancelled, the method still goes through all [maxRetries + 1] attempts
    and the whole backoff sequence before it returns the RATE_LIMIT error
    around the last failure; the wrapped client's answers play no part. *)
Theorem limiter_failure_retried_to_the_end (failure : nat → err) :
  (0 ≤ maxRetries)%Z →
  (∀ k, (Z.of_nat k ≤ maxRetries)%Z → wait k = Some (failure k)) →
  retryable_call region maxRetries wait answer
  = mkRun None
      (Some (Custom ErrorTypeRateLimit "rate limit context cancelled"
               (Some (failure (Z.to_nat maxRetries)))))
      (S (Z.to_nat maxRetries)) (backoffDuration <$> seq 0 (Z.to_nat maxRetries)).
Proof.
  intros Hm Hall. unfold retryable_call, retry.
  assert (Hl : ∀ k, (Z.of_nat k ≤ maxRetries)%Z →
            limited region (wait k) (answer k)
            = (None, Some (Custom ErrorTypeRateLimit "rate limit context cancelled"
                             (Some (failure k))))).
  { intros k Hk. unfold limited. rewrite (Hall k Hk). reflexivity. }
  replace (Z.to_nat (maxRetries + 1)) with (S (Z.to_nat maxRetries)) by lia.
  rewrite (retry_loop_exhausted maxRetries _ (Z.to_nat maxRetries) 0 None None []).
  - cbn [Nat.add]. rewrite Hl by lia. reflexivity.
  - lia.
  - intros j Hj. cbn [Nat.add]. rewrite Hl by lia. reflexivity.
Qed.

End RetryableCall.

Lemma permission_error_not_retried_witness :
  aws.retryable_call "us-east-1" 3 (λ _, None) (λ _, (@None string, Some access_denied))
  = aws.mkRun None
      (Some (aws.Custom aws.ErrorTypePermission "insufficient AWS permissions"
               (Some access_denied))) 1 [].
Proof.
  apply (permission_error_not_retried "us-east-1" 3 (λ _, None)
           (λ _, (@None string, Some access_denied)) access_denied "AccessDenied" "no").
  - lia.
  - reflexivity.
  - reflexivity.
  - reflexivity.
  - left. reflexivity.
Defined.

Lemma throttling_retried_to_the_end_witness :
  aws.retryable_call "us-east-1" 2 (λ _, None) (λ _, (@None string, Some throttled))
  = aws.mkRun None
      (Some (aws.Custom aws.ErrorTypeRateLimit "AWS API rate limit exceeded" (Some throttled)))
      3 [1000000000%Z; 2000000000%Z].
Proof.
  apply (throttling_retried_to_the_end "us-east-1" 2 (λ _, None)
           (λ _, (@None string, Some throttled)) (λ _, throttled)).
  - lia.
  - intros k Hk. split; [reflexivity|]. split; [reflexivity|].
    exists "Throttling", "Rate exceeded". split; [reflexivity | left; reflexivity].
Defined.

Lemma limiter_failure_retried_to_the_end_witness :
  aws.retryable_call "us-east-1" 2 (λ _, Some aws.Canceled) (λ _, (Some "page", None))
  = aws.mkRun None
      (Some (aws.Custom aws.ErrorTypeRateLimit "rate limit context cancelled"
               (Some aws.Canceled)))
      3 [1000000000%Z; 2000000000%Z].
Proof.
  apply (limiter_failure_retried_to_the_end "us-east-1" 2 (λ _, Some aws.Canceled)
           (λ _, (Some "page", None)) (λ _, aws.Canceled)).
  - lia.
  - intros k Hk. reflexivity.
Defined.
